(** * toil.lib.singularity: container invocation and lifecycle

    A shallow embedding of [src/toil/lib/singularity.py] and the properties
    of its command composer, lifecycle policy, invoker, terminators and
    status probe.

    Reading of the source.  Two statements of the module have an unbalanced
    parenthesis (the volume merge at lines 159-160 and the [logger.error]
    call at lines 246-247).  The functions are modelled as their bodies are
    written; the volume merge, whose meaning the text does not fix, is a
    parameter of the environment, and the [logger.error] call is an event.

    Names.  A Python function body reads module-level names from the module
    namespace at call time.  [module_globals] lists the names the module's
    own top-level statements bind; a read of any other global name raises
    [NameError], and a read of a function-local name before its first
    assignment raises [UnboundLocalError], a subclass of [NameError]. *)

From Stdlib Require Import String Ascii List ZArith Bool Lia.
From Stdlib Require Import DecimalString.
Import ListNotations.
Local Open Scope list_scope.
Local Open Scope string_scope.

(** ** Strings *)

Definition dquote : ascii := "034"%char.
Definition squote : ascii := "'"%char.

(** [str.replace(old, new)] for a one-character [old]. *)
Fixpoint replace_char (old : ascii) (new : string) (s : string) : string :=
  match s with
  | EmptyString => EmptyString
  | String c r =>
      if Ascii.eqb c old then new ++ replace_char old new r
      else String c (replace_char old new r)
  end.

(** [sep.join(l)] *)
Definition join (sep : string) (l : list string) : string := String.concat sep l.

(** ** shlex.quote

    [from shlex import quote] (line 5).  The library function:
<<
    _find_unsafe = re.compile(r'[^\w@%+=:,./-]', re.ASCII).search
    def quote(s):
        if not s: return "''"
        if _find_unsafe(s) is None: return s
        return "'" + s.replace("'", "'\"'\"'") + "'"
>>
    The comment at line 183 of the module shows the same behaviour:
    ['echo','the Oread'] becomes "echo 'the Oread'". *)

Definition is_word_char (c : ascii) : bool :=
  let n := nat_of_ascii c in
  (((48 <=? n) && (n <=? 57)) || ((65 <=? n) && (n <=? 90))
   || ((97 <=? n) && (n <=? 122)) || (n =? 95))%nat.

Definition safe_char (c : ascii) : bool :=
  is_word_char c
  || existsb (Ascii.eqb c) (list_ascii_of_string "@%+=:,./-").

Fixpoint all_safe (s : string) : bool :=
  match s with
  | EmptyString => true
  | String c r => safe_char c && all_safe r
  end.

(** the replacement text for a single quote: the five characters
    quote, double quote, quote, double quote, quote *)
Definition squote_escape : string :=
  String squote (String dquote (String squote (String dquote
    (String squote EmptyString)))).

Definition quote (s : string) : string :=
  match s with
  | EmptyString => "''"
  | _ =>
      if all_safe s then s
      else String squote (replace_char squote squote_escape s ++ "'")
  end.

(** ** Command Composer (lines 162-199) *)

(** The two shapes of [parameters]: a list of strings, or a list of lists
    of strings.  The empty list is [Flat []]. *)
Inductive Params :=
| Flat (args : list string)
| Nested (stages : list (list string)).

(** [command] is a string in the flat branch and a list in the nested one. *)
Inductive Command :=
| CmdStr (s : string)
| CmdList (l : list string).

Definition pipe_prefix : string := "set -eo pipefail && ".

(** lines 169-172 and 188-191 *)
Definition wrap_runscript (runscript : option string) : list string :=
  match runscript with
  | Some r => [r]
  | None => ["/bin/bash"; "-c"]
  end.

(** line 173-175 *)
Definition chain_params (parameters : list (list string)) : list string :=
  map (fun command => join " " (map quote command)) parameters.

(** line 176 *)
Definition pipeline (parameters : list (list string)) : string :=
  join " | " (chain_params parameters).

(** line 192 *)
Definition flat_command (parameters : list string) : string :=
  join " " (map quote parameters).

(** The resulting pair ([runscript], [command]); [None] is Python's None. *)
Definition compose (runscript : option string) (parameters : Params)
  : option (list string) * option Command :=
  match parameters with
  | Nested ((_ :: _) as stages) =>
      let rs := wrap_runscript runscript in
      (Some rs, Some (CmdList (rs ++ [pipe_prefix ++ pipeline stages]%string)%list))
  | Flat ((_ :: _) as args) =>
      (Some (wrap_runscript runscript), Some (CmdStr (flat_command args)))
  | _ => (None, None)
  end.

(** ** Shell token recognition

    What [/bin/bash -c] makes of the composed string: token recognition as
    in the POSIX Shell Command Language (2.3), with the quoting of 2.2
    removed from the words.  Blanks separate tokens; an unquoted newline is
    a token; the characters [| & ; < > ( )] form operators, taken as long
    as they go; [#] where a token would start opens a comment up to the end
    of the line.  A backslash keeps the next character (a backslash and a
    newline vanish together), single quotes keep every character, double
    quotes keep all but [$], the backquote and the backslash, which there
    escapes only those, the double quote and the newline.  A quoted part
    makes a word even when empty.

    A word records whether it is literal: it is not when one of
    [* ? [ ~ {] stands unquoted in it, which later expansions would look
    at.  An unquoted or double-quoted [$] or backquote starts an expansion,
    whose extent is not recognised here: the answer is then [Expansion].
    An unclosed quote or a trailing backslash gives [Unterminated]. *)

Inductive Token :=
| TWord (text : string) (literal : bool)
| TOperator (op : string)
| TNewline.

Inductive Lexed :=
| Tokens (l : list Token)
| Unterminated
| Expansion.

Inductive LexState :=
| Plain
| Escape
| SQuote
| DQuote
| DQuoteEscape
| InOperator (pending : string)
| InComment
| Expanding.

(** the word in progress: its text so far, and whether it is literal *)
Definition Word : Type := (string * bool)%type.

Definition is_blank (c : ascii) : bool :=
  existsb (Ascii.eqb c) [" "%char; "009"%char].

Definition backslash : ascii := "\"%char.
Definition linefeed : ascii := "010"%char.
Definition backquote : ascii := "096"%char.

Definition is_operator_char (c : ascii) : bool :=
  existsb (Ascii.eqb c) (list_ascii_of_string "|&;<>()").

(** the operators of more than one character *)
Definition operators : list string :=
  ["&&"; "||"; ";;"; "<<"; ">>"; "<&"; ">&"; "<>"; "<<-"; ">|"].

(** [pending] followed by [c] is an operator still *)
Definition extends (pending : string) (c : ascii) : bool :=
  existsb (String.eqb (pending ++ String c EmptyString)) operators.

Definition is_expansion_char (c : ascii) : bool :=
  Ascii.eqb c "$" || Ascii.eqb c backquote.

Definition is_pattern_char (c : ascii) : bool :=
  existsb (Ascii.eqb c) (list_ascii_of_string "*?[~{").

Definition push (cur : option Word) (c : ascii) : option Word :=
  match cur with
  | None => Some (String c EmptyString, true)
  | Some (w, l) => Some (w ++ String c EmptyString, l)
  end.

(** an unquoted pattern character: the word is no longer literal *)
Definition push_pattern (cur : option Word) (c : ascii) : option Word :=
  match cur with
  | None => Some (String c EmptyString, false)
  | Some (w, _) => Some (w ++ String c EmptyString, false)
  end.

Definition open_word (cur : option Word) : option Word :=
  match cur with
  | None => Some (EmptyString, true)
  | Some w => Some w
  end.

Definition flush (cur : option Word) : list Token :=
  match cur with
  | None => []
  | Some (w, l) => [TWord w l]
  end.

(** one unquoted character: the next state, the word in progress and the
    tokens delimited *)
Definition plain_step (cur : option Word) (c : ascii)
  : LexState * option Word * list Token :=
  if is_blank c then (Plain, None, flush cur)
  else if Ascii.eqb c linefeed then (Plain, None, (flush cur ++ [TNewline])%list)
  else if is_operator_char c
       then (InOperator (String c EmptyString), None, flush cur)
  else if Ascii.eqb c "#" && (match cur with None => true | Some _ => false end)
       then (InComment, None, [])
  else if Ascii.eqb c backslash then (Escape, cur, [])
  else if Ascii.eqb c squote then (SQuote, open_word cur, [])
  else if Ascii.eqb c dquote then (DQuote, open_word cur, [])
  else if is_expansion_char c then (Expanding, cur, [])
  else if is_pattern_char c then (Plain, push_pattern cur c, [])
  else (Plain, push cur c, []).

Definition step (st : LexState) (cur : option Word) (c : ascii)
  : LexState * option Word * list Token :=
  match st with
  | Plain => plain_step cur c
  | Escape =>
      if Ascii.eqb c linefeed then (Plain, cur, [])
      else (Plain, push cur c, [])
  | SQuote =>
      if Ascii.eqb c squote then (Plain, cur, [])
      else (SQuote, push cur c, [])
  | DQuote =>
      if Ascii.eqb c dquote then (Plain, cur, [])
      else if Ascii.eqb c backslash then (DQuoteEscape, cur, [])
      else if is_expansion_char c then (Expanding, cur, [])
      else (DQuote, push cur c, [])
  | DQuoteEscape =>
      if is_expansion_char c || Ascii.eqb c dquote || Ascii.eqb c backslash
      then (DQuote, push cur c, [])
      else if Ascii.eqb c linefeed then (DQuote, cur, [])
      else (DQuote, push (push cur backslash) c, [])
  | InOperator pending =>
      if extends pending c
      then (InOperator (pending ++ String c EmptyString), None, [])
      else (fst (plain_step None c),
            (TOperator pending :: snd (plain_step None c)))
  | InComment =>
      if Ascii.eqb c linefeed then (Plain, None, [TNewline])
      else (InComment, None, [])
  | Expanding => (Expanding, cur, [])
  end.

(** the end of the input *)
Definition finish (st : LexState) (cur : option Word) : Lexed :=
  match st with
  | Plain => Tokens (flush cur)
  | InOperator pending => Tokens [TOperator pending]
  | InComment => Tokens []
  | Expanding => Expansion
  | Escape | SQuote | DQuote | DQuoteEscape => Unterminated
  end.

Definition delimited (tokens : list Token) (r : Lexed) : Lexed :=
  match r with
  | Tokens l => Tokens (tokens ++ l)
  | Unterminated => Unterminated
  | Expansion => Expansion
  end.

Fixpoint lex (st : LexState) (cur : option Word) (s : string) : Lexed :=
  match s with
  | EmptyString => finish st cur
  | String c r =>
      delimited (snd (step st cur c))
        (lex (fst (fst (step st cur c))) (snd (fst (step st cur c))) r)
  end.

Definition tokenize (s : string) : Lexed := lex Plain None s.

(** a word given as it is *)
Definition literal_word (s : string) : Token := TWord s true.

(** the word in progress after reading the safe characters of [s] *)
Definition extend (cur : option Word) (s : string) : option Word :=
  match s with
  | EmptyString => cur
  | _ => Some (match cur with
               | None => (s, true)
               | Some (w, l) => (w ++ s, l)
               end)
  end.

(** ** Python values, exceptions *)

Inductive PyVal :=
| VNone
| VBool (b : bool)
| VInt (z : Z)
| VStr (s : string).

(** [x == y] *)
Definition py_eq (x y : PyVal) : bool :=
  match x, y with
  | VNone, VNone => true
  | VBool a, VBool b => Bool.eqb a b
  | VInt a, VInt b => Z.eqb a b
  | VBool a, VInt b => Z.eqb (Z.b2z a) b
  | VInt a, VBool b => Z.eqb a (Z.b2z b)
  | VStr a, VStr b => String.eqb a b
  | _, _ => false
  end.

(** [x in t] for a tuple [t] *)
Definition py_in (x : PyVal) (t : list PyVal) : bool := existsb (py_eq x) t.

(** [x is True] *)
Definition is_True (x : PyVal) : bool :=
  match x with
  | VBool true => true
  | _ => false
  end.

(** [a or b] on optional strings: [a] when it is neither None nor empty *)
Definition py_or (a b : option string) : option string :=
  match a with
  | Some (String _ _) => a
  | _ => b
  end.

(** [str(n)] for an int *)
Definition str_int (n : Z) : string := NilZero.string_of_int (Z.to_int n).

Inductive Exn :=
| NameError (name : string)
| UnboundLocalError (name : string)
| AssertionError (msg : string)
| NotFound
| HTTPError (e : string)
| APIError (e : string)
| OtherError (e : string).

(** [isinstance(e, NameError)]: [UnboundLocalError] is a subclass. *)
Definition is_NameError (e : Exn) : bool :=
  match e with
  | NameError _ | UnboundLocalError _ => true
  | _ => false
  end.

(** [isinstance(e, requests.exceptions.HTTPError)]: docker's [APIError]
    derives from it and [NotFound] derives from [APIError]. *)
Definition is_HTTPError (e : Exn) : bool :=
  match e with
  | NotFound | HTTPError _ | APIError _ => true
  | _ => false
  end.

(** ** The module namespace (lines 1-26 and the four [def]s) *)

Definition FORGO : Z := 0.
Definition STOP : Z := 1.
Definition RM : Z := 2.

(** The names bound by the module's top-level statements.  The statements
    [from docker.errors import ...] bind the four imported names and not
    [docker]; nothing binds [singularityStop] or [singularityKill]. *)
Definition module_globals : list string :=
  [ "absolute_import"; "quote"; "spython"; "base64"; "requests"; "logging";
    "os"; "sys"; "create_api_error_from_http_exception"; "ContainerError";
    "ImageNotFound"; "NotFound"; "logger"; "FORGO"; "STOP"; "RM";
    "apiSingularityCall"; "dockerKill"; "dockerStop"; "containerIsRunning";
    "getContainerName" ].

(** A namespace is given by the names other code has added to the module
    after import; the module as it stands is [[]]. *)
Definition Namespace := list string.

Definition bound (ns : Namespace) (name : string) : bool :=
  existsb (String.eqb name) (module_globals ++ ns).

(** ** Effects: a trace of calls to the collaborators, and exceptions *)

Inductive Bind :=
| BindStr (s : string)
| BindList (l : list string).

(** The outcome handed back by the runtime client. *)
Inductive Result :=
| Output (text : string)
| Handle (container : string).

(** keyword arguments of [client.run] / [client.execute] *)
Record ClientCall := {
  call_image : string;
  call_command : option Command;
  call_runscript : option (list string);
  call_stream : bool;
  call_bind : Bind;
  call_kwargs : list (string * PyVal)
}.

Inductive Event :=
| LogDebug (command : Command)
| LogError (e : Exn) (command : option Command)
| GetClient
| Defer (fn : string) (containerName : string)
| ClientRun (c : ClientCall)
| ClientExecute (c : ClientCall).

Definition M (A : Type) : Type := (list Event * (Exn + A))%type.

Definition ret {A} (x : A) : M A := ([], inr x).
Definition raise {A} (e : Exn) : M A := ([], inl e).
Definition emit (ev : Event) : M unit := ([ev], inr tt).
Definition lift {A} (r : Exn + A) : M A := ([], r).

Definition mbind {A B} (m : M A) (k : A -> M B) : M B :=
  match m with
  | (tr, inl e) => (tr, inl e)
  | (tr, inr x) => (tr ++ fst (k x), snd (k x))%list
  end.

Notation "x <- m ;; k" := (mbind m (fun x => k))
  (at level 61, m at next level, right associativity).
Notation "m ;;; k" := (mbind m (fun _ => k))
  (at level 61, right associativity).

Definition trace {A} (m : M A) : list Event := fst m.
Definition outcome {A} (m : M A) : Exn + A := snd m.

(** a read of a module-level name *)
Definition global (ns : Namespace) (name : string) : M unit :=
  if bound ns name then ret tt else raise (NameError name).

(** [assert cond, msg], the interpreter running without [-O] *)
Definition py_assert (cond : bool) (msg : string) : M unit :=
  if cond then ret tt else raise (AssertionError msg).

(** ** Collaborators *)

Record Env := {
  os_getuid : Z;
  os_getgid : Z;
  os_getcwd : string;
  os_path_abspath : string -> string;
  (** [base64.b64encode(os.urandom(9), b'-_').decode('utf-8')] *)
  urandom_b64 : string;
  (** the statement at lines 159-160, [bind += [...]] over [volumes.items()] *)
  merge_volumes : Bind -> list (string * string) -> Exn + Bind;
  (** [spython.spython.main.get_client()] *)
  get_client : Exn + unit;
  client_run : ClientCall -> Exn + Result;
  client_execute : ClientCall -> Exn + Result
}.

(** ** Container Naming (lines 319-323); [job] stands for [str(job)] *)

Definition getContainerName (env : Env) (job : string) : string :=
  replace_char "_" EmptyString
    (replace_char dquote EmptyString
       (replace_char squote EmptyString (join "--" [job; urandom_b64 env]))).

(** ** Container Invoker (lines 28-248) *)

Record Args := {
  job : string;
  image : string;
  parameters : option Params;
  deferParam : PyVal;
  bind : option Bind;
  volumes : option (list (string * string));
  working_dir : option string;
  containerName : option string;
  runscript : option string;
  entrypoint : option string;
  stream : bool;
  detach : bool;
  remove : PyVal;
  user : option string;
  stdout : PyVal;
  stderr : PyVal;
  streamfile : option string;
  timeout : Z;
  kwargs : list (string * PyVal)
}.

(** the locals as they stand after line 201 *)
Record Locals := {
  l_runscript : option (list string);
  l_stream : bool;
  l_options : list string;
  l_user : string;
  l_containerName : string;
  l_working_dir : string;
  l_bind : Bind;
  l_command : option Command
}.

(** lines 133-201 *)
Definition prelude (env : Env) (a : Args) : M Locals :=
  let runscript1 := py_or (runscript a) (entrypoint a) in
  let stream1 := stream a || detach a in
  let options1 :=
    match user a with
    | Some u => ["--userns"; u]
    | None => []
    end in
  let user1 :=
    match user a with
    | Some u => u
    | None => str_int (os_getuid env) ++ ":" ++ str_int (os_getgid env)
    end in
  let containerName1 :=
    match containerName a with
    | None => getContainerName env (job a)
    | Some n => n
    end in
  let working_dir1 :=
    match working_dir a with
    | None => os_getcwd env
    | Some w => w
    end in
  let options2 :=
    match working_dir a with
    | None => (options1 ++ ["--workdir"; working_dir1])%list
    | Some _ => options1
    end in
  let bind1 :=
    match bind a with
    | None => BindStr (working_dir1 ++ ":/data")
    | Some b => b
    end in
  bind2 <- match volumes a with
           | Some v => lift (merge_volumes env bind1 v)
           | None => ret bind1
           end ;;
  let parameters1 :=
    match parameters a with
    | None => Flat []
    | Some p => p
    end in
  let rc := compose runscript1 parameters1 in
  match snd rc with
  | Some c => emit (LogDebug c)
  | None => ret tt
  end ;;;
  ret {| l_runscript := fst rc;
         l_stream := stream1;
         l_options := options2;
         l_user := user1;
         l_containerName := containerName1;
         l_working_dir := os_path_abspath env working_dir1;
         l_bind := bind2;
         l_command := snd rc |}.

(** line 204 *)
Definition valid_deferParam (d : PyVal) : bool :=
  py_in d [VNone; VInt FORGO; VInt STOP; VInt RM].

Definition validate (d : PyVal) : M unit :=
  py_assert (valid_deferParam d) "Please provide a valid value for deferParam.".

(** line 207 *)
Definition acquire_client (env : Env) : M unit :=
  emit GetClient ;;; lift (get_client env).

(** [job.defer(fn, containerName)]: the arguments are evaluated, then the
    hook is called. *)
Definition job_defer (ns : Namespace) (fn : string) (containerName : string)
  : M unit :=
  global ns fn ;;; emit (Defer fn containerName).

(** Lifecycle Policy, lines 209-218; returns the value of [remove] *)
Definition register_deferred (ns : Namespace) (deferParam remove : PyVal)
    (containerName : string) : M PyVal :=
  (if py_eq deferParam (VInt STOP)
   then job_defer ns "singularityStop" containerName
   else ret tt) ;;;
  if py_eq deferParam (VInt FORGO) then ret (VBool false)
  else if py_eq deferParam (VInt RM) then
    job_defer ns "singularityKill" containerName ;;; ret (VBool true)
  else if is_True remove then
    job_defer ns "singularityKill" containerName ;;; ret remove
  else ret remove.

(** lines 220-221: [auto_remove] is assigned in the body, hence local, and
    it is read here before any assignment. *)
Definition read_auto_remove : M PyVal := raise (UnboundLocalError "auto_remove").

(** lines 228-248 *)
Definition invoke (env : Env) (a : Args) (l : Locals) : M Result :=
  let call := {| call_image := image a;
                 call_command := l_command l;
                 call_runscript := l_runscript l;
                 call_stream := false;
                 call_bind := l_bind l;
                 call_kwargs := kwargs a |} in
  let reply :=
    match l_runscript l with
    | None => emit (ClientRun call) ;;; lift (client_run env call)
    | Some _ => emit (ClientExecute call) ;;; lift (client_execute env call)
    end in
  match outcome reply with
  | inr out => (trace reply, inr out)
  | inl e => (trace reply ++ [LogError e (l_command l)], inl e)%list
  end.

Definition apiSingularityCall (ns : Namespace) (env : Env) (a : Args)
  : M Result :=
  l <- prelude env a ;;
  validate (deferParam a) ;;;
  acquire_client env ;;;
  remove1 <- register_deferred ns (deferParam a) (remove a) (l_containerName l) ;;
  auto_remove <- read_auto_remove ;;
  invoke env a l.

(** ** Deferred Terminator and Status Probe (lines 250-317) *)

(** The docker client and daemon as a state machine: [containers_get]
    answers with the container's status or raises, [container_kill] and
    [container_stop] act on the daemon's state or raise;
    [create_api_error_from_http_exception] is the library's conversion of an
    HTTP error into the exception it raises. *)
Record Daemon (S : Type) := {
  containers_get : string -> S -> Exn + string;
  container_kill : string -> S -> Exn + S;
  container_stop : string -> S -> Exn + S;
  create_api_error_from_http_exception : Exn -> Exn
}.
Arguments containers_get {S}.
Arguments container_kill {S}.
Arguments container_stop {S}.
Arguments create_api_error_from_http_exception {S}.

(** [x is False] *)
Definition is_False (x : PyVal) : bool :=
  match x with
  | VBool false => true
  | _ => false
  end.

(** The [while] loop of lines 265-270, entered with [this_container.status];
    [None] when [fuel] iterations did not leave the loop. *)
Fixpoint kill_loop {S} (d : Daemon S) (fuel : nat) (container_name : string)
    (gentleKill : PyVal) (status : string) (s : S) : option (S * (Exn + unit)) :=
  if negb (String.eqb status "running") then Some (s, inr tt)
  else
    match fuel with
    | O => None
    | Datatypes.S fuel' =>
        match containers_get d container_name s with
        | inl e => Some (s, inl e)
        | inr _ =>
            match (if is_False gentleKill
                   then container_kill d container_name s
                   else container_stop d container_name s) with
            | inl e => Some (s, inl e)
            | inr s' =>
                match containers_get d container_name s' with
                | inl e => Some (s', inl e)
                | inr status' =>
                    kill_loop d fuel' container_name gentleKill status' s'
                end
            end
        end
    end.

(** the [except] clauses of lines 271-277 *)
Definition kill_handlers {S} (d : Daemon S) (r : Exn + unit) : Exn + unit :=
  match r with
  | inr tt => inr tt
  | inl NotFound => inr tt
  | inl e =>
      if is_HTTPError e then inl (create_api_error_from_http_exception d e)
      else inl e
  end.

Definition dockerKill {S} (ns : Namespace) (d : Daemon S) (fuel : nat)
    (container_name : string) (gentleKill : PyVal) (timeout : Z) (s : S)
  : option (S * (Exn + unit)) :=
  if negb (bound ns "docker") then Some (s, inl (NameError "docker"))
  else
    match containers_get d container_name s with
    | inl e => Some (s, kill_handlers d (inl e))
    | inr status =>
        match kill_loop d fuel container_name gentleKill status s with
        | None => None
        | Some (s', r) => Some (s', kill_handlers d r)
        end
    end.

(** line 287: the body is [pass] *)
Definition dockerStop {S} (container_name : string) (s : S) : S * (Exn + unit) :=
  (s, inr tt).

(** line 302: the body starts with a bare [return] *)
Definition containerIsRunning {S} (container_name : string) (timeout : Z) (s : S)
  : S * (Exn + PyVal) :=
  (s, inr VNone).

(** lines 304-317, which follow the bare [return] and are never executed *)
Definition containerIsRunning_after_return {S} (ns : Namespace) (d : Daemon S)
    (container_name : string) (timeout : Z) (s : S) : S * (Exn + PyVal) :=
  if negb (bound ns "docker") then (s, inl (NameError "docker"))
  else
    match containers_get d container_name s with
    | inr status => (s, inr (VBool (String.eqb status "running")))
    | inl NotFound => (s, inr VNone)
    | inl e =>
        if is_HTTPError e then (s, inl (create_api_error_from_http_exception d e))
        else (s, inl e)
    end.

(** ** Observations on traces and strings *)

Definition is_defer (ev : Event) : bool :=
  match ev with
  | Defer _ _ => true
  | _ => false
  end.

(** a call of the client's [run] or [execute] *)
Definition is_invocation (ev : Event) : bool :=
  match ev with
  | ClientRun _ | ClientExecute _ => true
  | _ => false
  end.

(** any call into the runtime client or the job-completion hook *)
Definition is_runtime_event (ev : Event) : bool :=
  match ev with
  | GetClient | Defer _ _ | ClientRun _ | ClientExecute _ => true
  | _ => false
  end.

(** the deferred actions registered by an execution, in order *)
Definition deferred (tr : list Event) : list Event := filter is_defer tr.

Fixpoint count_char (c : ascii) (s : string) : nat :=
  match s with
  | EmptyString => 0
  | String d r => (if Ascii.eqb d c then 1 else 0) + count_char c r
  end.

Definition pipe : ascii := "|"%char.

(** occurrences of [c] in the arguments of all stages *)
Definition count_in_args (c : ascii) (stages : list (list string)) : nat :=
  list_sum (map (fun stage => list_sum (map (count_char c) stage)) stages).

(** ** Sample collaborators and inputs *)

Definition sample_env : Env :=
  {| os_getuid := 1000;
     os_getgid := 1000;
     os_getcwd := "/home/toil";
     os_path_abspath := fun p => p;
     urandom_b64 := "q83vEjRWeJ-a";
     merge_volumes := fun b v =>
       match b with
       | BindStr _ => inl (OtherError "TypeError")
       | BindList l =>
           inr (BindList
                  (l ++ map (fun hc => (fst hc ++ ":" ++ snd hc)%string) v)%list)
       end;
     get_client := inr tt;
     client_run := fun _ => inr (Output "ok");
     client_execute := fun _ => inr (Output "ok") |}.

(** the same collaborators, with a client that cannot be obtained *)
Definition unavailable_env : Env :=
  {| os_getuid := os_getuid sample_env;
     os_getgid := os_getgid sample_env;
     os_getcwd := os_getcwd sample_env;
     os_path_abspath := os_path_abspath sample_env;
     urandom_b64 := urandom_b64 sample_env;
     merge_volumes := merge_volumes sample_env;
     get_client := inl (OtherError "AttributeError");
     client_run := client_run sample_env;
     client_execute := client_execute sample_env |}.

(** the call of the docstring (lines 58-66) *)
Definition sample_args : Args :=
  {| job := "toil_job";
     image := "quay.io/ucgc_cgl/samtools:latest";
     parameters := Some (Flat ["faidx"; "/tmp/ref.fasta"]);
     deferParam := VNone;
     bind := None;
     volumes := None;
     working_dir := Some "/tmp";
     containerName := None;
     runscript := None;
     entrypoint := None;
     stream := false;
     detach := false;
     remove := VBool false;
     user := None;
     stdout := VNone;
     stderr := VBool false;
     streamfile := None;
     timeout := 365 * 24 * 60 * 60;
     kwargs := [] |}.

Definition with_lifecycle (d r : PyVal) (a : Args) : Args :=
  {| job := job a; image := image a; parameters := parameters a;
     deferParam := d; bind := bind a; volumes := volumes a;
     working_dir := working_dir a; containerName := containerName a;
     runscript := runscript a; entrypoint := entrypoint a;
     stream := stream a; detach := detach a; remove := r; user := user a;
     stdout := stdout a; stderr := stderr a; streamfile := streamfile a;
     timeout := timeout a; kwargs := kwargs a |}.

Definition with_detach (b : bool) (a : Args) : Args :=
  {| job := job a; image := image a; parameters := parameters a;
     deferParam := deferParam a; bind := bind a; volumes := volumes a;
     working_dir := working_dir a; containerName := containerName a;
     runscript := runscript a; entrypoint := entrypoint a;
     stream := stream a; detach := b; remove := remove a; user := user a;
     stdout := stdout a; stderr := stderr a; streamfile := streamfile a;
     timeout := timeout a; kwargs := kwargs a |}.

Definition with_capture (out err : PyVal) (file : option string) (a : Args)
  : Args :=
  {| job := job a; image := image a; parameters := parameters a;
     deferParam := deferParam a; bind := bind a; volumes := volumes a;
     working_dir := working_dir a; containerName := containerName a;
     runscript := runscript a; entrypoint := entrypoint a;
     stream := stream a; detach := detach a; remove := remove a;
     user := user a; stdout := out; stderr := err; streamfile := file;
     timeout := timeout a; kwargs := kwargs a |}.

(** a namespace in which the two deferred terminators and [docker] exist *)
Definition patched : Namespace := ["singularityStop"; "singularityKill"; "docker"].

(** A daemon holding the status of each container by name; [kill] and
    [stop] leave the container exited. *)
Fixpoint status_of (name : string) (s : list (string * string)) : option string :=
  match s with
  | [] => None
  | (n, st) :: r => if String.eqb n name then Some st else status_of name r
  end.

Fixpoint set_exited (name : string) (s : list (string * string))
  : list (string * string) :=
  match s with
  | [] => []
  | (n, st) :: r =>
      if String.eqb n name then (n, "exited") :: r
      else (n, st) :: set_exited name r
  end.

Definition sample_daemon : Daemon (list (string * string)) :=
  {| containers_get := fun name s =>
       match status_of name s with
       | Some st => inr st
       | None => inl NotFound
       end;
     container_kill := fun name s =>
       match status_of name s with
       | Some _ => inr (set_exited name s)
       | None => inl NotFound
       end;
     container_stop := fun name s =>
       match status_of name s with
       | Some _ => inr (set_exited name s)
       | None => inl NotFound
       end;
     create_api_error_from_http_exception := fun e =>
       match e with
       | HTTPError m => APIError m
       | _ => e
       end |}.

(** a daemon that cannot be reached *)
Definition unreachable_daemon : Daemon unit :=
  {| containers_get := fun _ _ => inl (HTTPError "500");
     container_kill := fun _ _ => inl (HTTPError "500");
     container_stop := fun _ _ => inl (HTTPError "500");
     create_api_error_from_http_exception := fun e =>
       match e with
       | HTTPError m => APIError m
       | _ => e
       end |}.

(** ** Further observations on the singularity module *)

(** the characters of [s] that satisfy [p], in order *)
Fixpoint string_filter (p : ascii -> bool) (s : string) : string :=
  match s with
  | EmptyString => EmptyString
  | String c r => if p c then String c (string_filter p r) else string_filter p r
  end.

(** the characters [getContainerName] removes *)
Definition stripped_char (c : ascii) : bool :=
  Ascii.eqb c squote || Ascii.eqb c dquote || Ascii.eqb c "_".

(** [sep] between the consecutive lists of [l] *)
Fixpoint intercalate {A} (sep : list A) (l : list (list A)) : list A :=
  match l with
  | [] => []
  | [x] => x
  | x :: r => (x ++ sep ++ intercalate sep r)%list
  end.

(** [parameters] is None or an empty list *)
Definition params_empty (p : option Params) : bool :=
  match p with
  | None | Some (Flat []) | Some (Nested []) => true
  | _ => false
  end.

(** the request [dockerKill] sends: [kill] when [gentleKill is False],
    [stop] otherwise *)
Definition kill_request {S} (d : Daemon S) (gentleKill : PyVal)
  : string -> S -> Exn + S :=
  if is_False gentleKill then container_kill d else container_stop d.

(** a daemon that accepts every request and keeps reporting the container
    as running *)
Definition stubborn_daemon : Daemon nat :=
  {| containers_get := fun _ _ => inr "running";
     container_kill := fun _ n => inr (Datatypes.S n);
     container_stop := fun _ n => inr (Datatypes.S n);
     create_api_error_from_http_exception := fun e => e |}.

(** ** toil.utils.toilDebugFile

    [src/toil/utils/toilDebugFile.py].  The file system below a directory
    is a tree of file names and named subdirectories, in listing order;
    [os.walk], [os.path.join] and the loops of the module are modelled on
    it.  [fnmatch], [os.path.abspath] and the job store are collaborators. *)

(** [os.path.join(a, b)] on POSIX, for two strings *)
Definition starts_with_sep (s : string) : bool :=
  match s with
  | String c _ => Ascii.eqb c "/"
  | EmptyString => false
  end.

Fixpoint ends_with_sep (s : string) : bool :=
  match s with
  | EmptyString => false
  | String c EmptyString => Ascii.eqb c "/"
  | String _ r => ends_with_sep r
  end.

Definition os_path_join (a b : string) : string :=
  if starts_with_sep b then b
  else
    match a with
    | EmptyString => b
    | _ => if ends_with_sep a then a ++ b else a ++ "/" ++ b
    end.

(** a directory: its regular files, and its subdirectories by name (none
    of them a symbolic link, which [os.walk] lists and does not enter) *)
#[warnings="-register-all"]
Inductive Dir :=
| MkDir (filenames : list string) (subdirs : list (string * Dir)).

(** [os.walk(top)], top-down: the triples [(root, dirnames, filenames)] of
    the directory and then of each subdirectory in turn *)
Fixpoint os_walk (top : string) (d : Dir)
  : list (string * list string * list string) :=
  match d with
  | MkDir filenames subdirs =>
      (top, map fst subdirs, filenames)
      :: (fix below (l : list (string * Dir)) :=
            match l with
            | [] => []
            | (name, sub) :: r =>
                (os_walk (os_path_join top name) sub ++ below r)%list
            end) subdirs
  end.

Record Host := {
  (** [os.path.abspath] *)
  host_abspath : string -> string;
  (** the directory found at an absolute path, None where there is none *)
  host_directory : string -> option Dir;
  (** [fnmatch.fnmatch(name, pattern)] *)
  host_fnmatch : string -> string -> bool;
  (** what [os.path.join] raises for an argument that is a list *)
  join_error : Exn;
  (** [config.jobStore] after [config.setOptions(options)] *)
  config_jobStore : string -> string;
  (** [Toil.resumeJobStore] *)
  resumeJobStore : string -> Exn + unit;
  (** [jobStore.readGlobalFile(jobStoreFileID, localFileID, symlink=...)] *)
  readGlobalFile : string -> string -> option string -> Exn + unit
}.

(** lines 30-45 *)
Definition recursiveGlob (h : Host) (directoryname glob_pattern : string)
  : list string :=
  let directoryname1 := host_abspath h directoryname in
  flat_map
    (fun triple =>
       map (os_path_join (fst (fst triple)))
         (filter (fun filename => host_fnmatch h filename glob_pattern)
            (snd triple)))
    (match host_directory h directoryname1 with
     | Some d => os_walk directoryname1 d
     | None => []
     end).

(** the file [name] of directory [root], met by a walk of [d] from [top] *)
Inductive file_at : string -> Dir -> string -> string -> Prop :=
| file_here top filenames subdirs name :
    In name filenames ->
    file_at top (MkDir filenames subdirs) top name
| file_below top filenames subdirs dirname sub root name :
    In (dirname, sub) subdirs ->
    file_at (os_path_join top dirname) sub root name ->
    file_at top (MkDir filenames subdirs) root name.

(** no entry of the tree has a name that starts with a separator *)
Fixpoint plain_names (d : Dir) : bool :=
  match d with
  | MkDir filenames subdirs =>
      forallb (fun n => negb (starts_with_sep n)) filenames
      && (fix below (l : list (string * Dir)) :=
            match l with
            | [] => true
            | (name, sub) :: r =>
                negb (starts_with_sep name) && plain_names sub && below r
            end) subdirs
  end.

(** the parsed options (lines 84-107): [localFilePath] is a list when it
    comes from argparse with [nargs=1]; [fetchTheseJobStoreFiles] is a list
    of patterns, or the string that line 119 assigns *)
Inductive PathArg :=
| PathStr (s : string)
| PathList (l : list string).

Inductive Patterns :=
| PatternList (l : list string)
| PatternStr (s : string).

Record Options := {
  jobStore : string;
  localFilePath : PathArg;
  fetchTheseJobStoreFiles : option Patterns;
  listFilesInJobStore : option string;
  fetchEntireJobStore : option string;
  useSymlinks : option string
}.

Inductive DebugEvent :=
| LogInfo (format : string) (args : list string)
| ReadGlobalFile (jobStoreFileID localFileID : string) (symlink : option string)
| ResumeJobStore (locator : string).

(** [for x in patterns] *)
Definition iterate (p : Patterns) : list string :=
  match p with
  | PatternList l => l
  | PatternStr s => map (fun c => String c EmptyString) (list_ascii_of_string s)
  end.

(** line 62, [os.path.join(jobStoreFileID, options.localFilePath)] *)
Definition localFileID (h : Host) (jobStoreFileID : string) (p : PathArg)
  : Exn + string :=
  match p with
  | PathStr s => inr (os_path_join jobStoreFileID s)
  | PathList _ => inl (join_error h)
  end.

(** lines 61-64, the inner loop *)
Fixpoint copy_hits (h : Host) (o : Options) (jobStoreHits : list string)
  : list DebugEvent * (Exn + unit) :=
  match jobStoreHits with
  | [] => ([], inr tt)
  | jobStoreFileID :: r =>
      match localFileID h jobStoreFileID (localFilePath o) with
      | inl e => ([], inl e)
      | inr dest =>
          let copying :=
            [LogInfo "Copying job store file: %s to %s" [jobStoreFileID; dest];
             ReadGlobalFile jobStoreFileID dest (useSymlinks o)] in
          match readGlobalFile h jobStoreFileID dest (useSymlinks o) with
          | inl e => (copying, inl e)
          | inr _ =>
              ((copying ++ fst (copy_hits h o r))%list, snd (copy_hits h o r))
          end
      end
  end.

(** lines 59-64, the outer loop *)
Fixpoint fetch_patterns (h : Host) (o : Options) (patterns : list string)
  : list DebugEvent * (Exn + unit) :=
  match patterns with
  | [] => ([], inr tt)
  | jobStoreFile :: r =>
      let copied := copy_hits h o (recursiveGlob h (jobStore o) jobStoreFile) in
      match snd copied with
      | inl e => (fst copied, inl e)
      | inr _ =>
          ((fst copied ++ fst (fetch_patterns h o r))%list,
           snd (fetch_patterns h o r))
      end
  end.

(** lines 47-64 *)
Definition fetchJobStoreFiles (h : Host) (o : Options)
  : list DebugEvent * (Exn + unit) :=
  match fetchTheseJobStoreFiles o with
  | None => ([], inl (OtherError "TypeError"))
  | Some p => fetch_patterns h o (iterate p)
  end.

(** the regular files of the working directory, by name *)
Definition Files := string -> option string.

(** [open(name, "w")]: the file is created or emptied *)
Definition open_w (fs : Files) (name : string) : Files :=
  fun n => if String.eqb n name then Some EmptyString else fs n.

(** [f.write(data)] on the open file *)
Definition file_write (fs : Files) (name data : string) : Files :=
  fun n =>
    if String.eqb n name
    then match fs n with
         | Some content => Some (content ++ data)
         | None => None
         end
    else fs n.

Definition list_of_jobstore_files : string := "list_of_jobstore_files.txt".

Definition newline : string := String "010"%char EmptyString.

(** lines 75-79, one turn of the loop *)
Definition print_one (st : list DebugEvent * Files) (gfile : string)
  : list DebugEvent * Files :=
  ((fst st ++ [LogInfo "File: %s" [gfile]])%list,
   file_write
     (file_write (open_w (snd st) list_of_jobstore_files)
        list_of_jobstore_files gfile)
     list_of_jobstore_files newline).

(** lines 66-79 *)
Definition printContentsOfJobStore (h : Host) (jobStore : string) (fs : Files)
  : list DebugEvent * Files :=
  fold_left print_one (recursiveGlob h jobStore "*") ([], fs).

(** truth of an option that takes a value *)
Definition given (o : option string) : bool :=
  match o with
  | Some (String _ _) => true
  | _ => false
  end.

Definition patterns_given (o : option Patterns) : bool :=
  match o with
  | Some (PatternList (_ :: _)) | Some (PatternStr (String _ _)) => true
  | _ => false
  end.

Definition with_patterns (p : Patterns) (o : Options) : Options :=
  {| jobStore := jobStore o; localFilePath := localFilePath o;
     fetchTheseJobStoreFiles := Some p;
     listFilesInJobStore := listFilesInJobStore o;
     fetchEntireJobStore := fetchEntireJobStore o;
     useSymlinks := useSymlinks o |}.

(** lines 107-124 of [main], from the parsed options on *)
Definition main (h : Host) (o : Options) (fs : Files)
  : list DebugEvent * Files * (Exn + unit) :=
  let locator := config_jobStore h (jobStore o) in
  match resumeJobStore h locator with
  | inl e => ([ResumeJobStore locator], fs, inl e)
  | inr _ =>
      let connected :=
        [ResumeJobStore locator;
         LogInfo "Connected to job store: %s" [locator]] in
      let fetched :=
        if patterns_given (fetchTheseJobStoreFiles o)
        then fetchJobStoreFiles h o
        else if given (fetchEntireJobStore o)
             then fetchJobStoreFiles h (with_patterns (PatternStr "*") o)
             else ([], inr tt) in
      match snd fetched with
      | inl e => ((connected ++ fst fetched)%list, fs, inl e)
      | inr _ =>
          if given (listFilesInJobStore o)
          then
            let listed := printContentsOfJobStore h (jobStore o) fs in
            ((connected ++ fst fetched ++ fst listed)%list, snd listed, inr tt)
          else ((connected ++ fst fetched)%list, fs, inr tt)
      end
  end.

(** the patterns [main] has [fetchJobStoreFiles] look for *)
Definition requested_patterns (o : Options) : list string :=
  if patterns_given (fetchTheseJobStoreFiles o)
  then match fetchTheseJobStoreFiles o with
       | Some p => iterate p
       | None => []
       end
  else if given (fetchEntireJobStore o) then ["*"] else [].

(** all the hits of a list of patterns, pattern by pattern *)
Definition all_hits (h : Host) (store : string) (patterns : list string)
  : list string :=
  flat_map (recursiveGlob h store) patterns.

(** a job store with two files at the top and one in a subdirectory *)
Definition sample_tree : Dir :=
  MkDir ["a.txt"; "b.log"] [("tmp", MkDir ["c.txt"] [])].

Definition sample_host : Host :=
  {| host_abspath := fun p => p;
     host_directory := fun p =>
       if String.eqb p "/store" then Some sample_tree else None;
     host_fnmatch := fun name pattern =>
       String.eqb pattern "*"
       || String.eqb pattern name
       || (String.eqb pattern "*.txt"
           && String.eqb (substring (String.length name - 4) 4 name) ".txt");
     join_error := OtherError "TypeError";
     config_jobStore := fun p => p;
     resumeJobStore := fun _ => inr tt;
     readGlobalFile := fun _ _ _ => inr tt |}.

Definition sample_options : Options :=
  {| jobStore := "/store";
     localFilePath := PathList ["/out"];
     fetchTheseJobStoreFiles := Some (PatternList ["*.txt"]);
     listFilesInJobStore := None;
     fetchEntireJobStore := None;
     useSymlinks := None |}.

Definition no_files : Files := fun _ => None.

(** * Properties *)

(** ** The composer on examples *)

Example quote_echo : quote "echo" = "echo".
Proof. reflexivity. Qed.

Example quote_oread : flat_command ["echo"; "the Oread"] = "echo 'the Oread'".
Proof. reflexivity. Qed.

Example tokenize_oread :
  tokenize "echo 'the Oread'" = Tokens [TWord "echo" true; TWord "the Oread" true].
Proof. reflexivity. Qed.

Example tokenize_quoted_operators :
  tokenize (flat_command ["it's"; EmptyString; "a|b"; "#x"; "*"])
  = Tokens (map literal_word ["it's"; EmptyString; "a|b"; "#x"; "*"]).
Proof. reflexivity. Qed.

(** unquoted, the same characters are operators, comments and patterns *)
Example tokenize_unquoted_operators :
  tokenize "a|b>>c&&d;e" 
  = Tokens [TWord "a" true; TOperator "|"; TWord "b" true; TOperator ">>";
            TWord "c" true; TOperator "&&"; TWord "d" true; TOperator ";";
            TWord "e" true]
  /\ tokenize "echo a #b c" = Tokens [TWord "echo" true; TWord "a" true]
  /\ tokenize "ls *.txt" = Tokens [TWord "ls" true; TWord "*.txt" false]
  /\ tokenize "echo $HOME" = Expansion
  /\ tokenize "echo 'a" = Unterminated.
Proof. repeat split. Qed.

Example compose_empty rs : compose rs (Flat []) = (None, None).
Proof. reflexivity. Qed.

Example getContainerName_sample :
  getContainerName sample_env "toil_job" = "toiljob--q83vEjRWeJ-a".
Proof. reflexivity. Qed.

(** ** Strings *)

Lemma append_nil_r (s : string) : s ++ EmptyString = s.
Proof. induction s as [|c s IH]; simpl; [reflexivity | now rewrite IH]. Qed.

Lemma append_assoc (s t u : string) : (s ++ t) ++ u = s ++ (t ++ u).
Proof. induction s as [|c s IH]; simpl; [reflexivity | now rewrite IH]. Qed.

Lemma count_char_app c (s t : string) :
  count_char c (s ++ t) = count_char c s + count_char c t.
Proof. induction s as [|d s IH]; simpl; [reflexivity | rewrite IH; lia]. Qed.

(** ** The lexer on quoted words *)

(** a safe character is an ordinary character of a word *)
Lemma plain_step_safe c cur :
  safe_char c = true -> plain_step cur c = (Plain, push cur c, []).
Proof.
  destruct c as [[] [] [] [] [] [] [] []]; vm_compute; intros H;
    try discriminate H; reflexivity.
Qed.

Lemma delimited_nil r : delimited [] r = r.
Proof. now destruct r. Qed.

Lemma delimited_app l1 l2 r :
  delimited l1 (delimited l2 r) = delimited (l1 ++ l2) r.
Proof. destruct r; cbn; [now rewrite app_assoc | reflexivity | reflexivity]. Qed.

Lemma extend_push cur c s : extend (push cur c) s = extend cur (String c s).
Proof.
  destruct cur as [[w l]|]; destruct s; cbn; try reflexivity.
  now rewrite append_assoc.
Qed.

Lemma lex_safe (s : string) : forall cur rest,
  all_safe s = true -> lex Plain cur (s ++ rest) = lex Plain (extend cur s) rest.
Proof.
  induction s as [|c s IH]; intros cur rest H; [reflexivity|].
  simpl in H. apply andb_true_iff in H as [Hc Hs].
  change (String c s ++ rest) with (String c (s ++ rest)).
  cbn [lex step]. rewrite (plain_step_safe c cur Hc). cbn [fst snd].
  rewrite delimited_nil, (IH _ _ Hs). now rewrite extend_push.
Qed.

Lemma lex_squoted (s : string) : forall w l rest,
  lex SQuote (Some (w, l))
    (replace_char squote squote_escape s ++ String squote rest)
  = lex Plain (Some (w ++ s, l)) rest.
Proof.
  induction s as [|c s IH]; intros w l rest.
  - cbn. rewrite append_nil_r. apply delimited_nil.
  - cbn [replace_char]. destruct (Ascii.eqb_spec c squote) as [->|Hc].
    + rewrite append_assoc. cbn. rewrite !delimited_nil, IH, append_assoc.
      reflexivity.
    + change (String c ?x ++ ?y) with (String c (x ++ y)).
      cbn [lex step]. apply Ascii.eqb_neq in Hc. rewrite Hc. cbn [fst snd push].
      rewrite delimited_nil, IH, append_assoc. reflexivity.
Qed.

Lemma lex_quote (s rest : string) :
  lex Plain None (quote s ++ rest) = lex Plain (Some (s, true)) rest.
Proof.
  destruct s as [|c s]; [cbn; now rewrite !delimited_nil|].
  unfold quote. destruct (all_safe (String c s)) eqn:E.
  - now rewrite lex_safe.
  - change (String squote ?x ++ ?y) with (String squote (x ++ y)).
    rewrite append_assoc.
    change (delimited []
              (lex SQuote (Some (EmptyString, true))
                 (replace_char squote squote_escape (String c s)
                  ++ String squote rest))
            = lex Plain (Some (String c s, true)) rest).
    now rewrite delimited_nil, lex_squoted.
Qed.

(** a blank after a word delimits it *)
Lemma lex_blank w rest :
  lex Plain (Some (w, true)) (String " " rest)
  = delimited [literal_word w] (lex Plain None rest).
Proof. reflexivity. Qed.

Lemma lex_flat_then_blank (P : list string) (rest : string) :
  lex Plain None (flat_command P ++ String " " rest)
  = delimited (map literal_word P) (lex Plain None rest).
Proof.
  unfold flat_command, join.
  induction P as [|x P IH].
  - cbn. now rewrite !delimited_nil.
  - destruct P as [|y P].
    + cbn [map String.concat]. rewrite lex_quote. apply lex_blank.
    + change (String.concat " " (map quote (x :: y :: P)))
        with (quote x ++ String " " (String.concat " " (map quote (y :: P)))).
      rewrite append_assoc, lex_quote.
      change (String " " ?u ++ ?v) with (String " " (u ++ v)).
      rewrite lex_blank, IH, delimited_app. reflexivity.
Qed.

Lemma tokenize_flat_command (P : list string) :
  tokenize (flat_command P) = Tokens (map literal_word P).
Proof.
  unfold tokenize, flat_command, join.
  induction P as [|x P IH]; [reflexivity|].
  destruct P as [|y P].
  - simpl. rewrite <- (append_nil_r (quote x)), lex_quote. reflexivity.
  - change (String.concat " " (map quote (x :: y :: P)))
      with (quote x ++ String " " (String.concat " " (map quote (y :: P)))).
    rewrite lex_quote, lex_blank, IH. reflexivity.
Qed.

(** ** Counting pipe characters *)

Lemma count_char_replace c (s : string) :
  Ascii.eqb squote c = false -> Ascii.eqb dquote c = false ->
  count_char c (replace_char squote squote_escape s) = count_char c s.
Proof.
  intros Hs Hd. induction s as [|d s IH]; [reflexivity|].
  cbn [replace_char]. destruct (Ascii.eqb_spec d squote) as [->|Hn].
  - rewrite count_char_app, IH. unfold squote_escape. cbn [count_char].
    rewrite Hs, Hd. reflexivity.
  - cbn [count_char]. now rewrite IH.
Qed.

Lemma count_pipe_quote (s : string) : count_char pipe (quote s) = count_char pipe s.
Proof.
  destruct s as [|c s]; [reflexivity|].
  unfold quote. destruct (all_safe (String c s)); [reflexivity|].
  cbn [count_char]. rewrite count_char_app, count_char_replace by reflexivity.
  cbn. lia.
Qed.

Lemma count_char_join c sep (l : list string) :
  count_char c (join sep l)
  = list_sum (map (count_char c) l) + (length l - 1) * count_char c sep.
Proof.
  unfold join. induction l as [|x l IH]; [reflexivity|].
  destruct l as [|y l].
  - simpl. lia.
  - change (String.concat sep (x :: y :: l))
      with (x ++ sep ++ String.concat sep (y :: l)).
    rewrite !count_char_app, IH. cbn [map list_sum length].
    rewrite !Nat.sub_succ, !Nat.sub_0_r. cbn [Nat.mul].
    unfold list_sum. cbn [fold_right]. lia.
Qed.

Lemma count_pipe_stage (stage : list string) :
  count_char pipe (join " " (map quote stage))
  = list_sum (map (count_char pipe) stage).
Proof.
  rewrite count_char_join, map_map. cbn [count_char Ascii.eqb].
  rewrite (map_ext _ (count_char pipe) count_pipe_quote).
  cbn. lia.
Qed.

Lemma count_pipe_pipeline (stages : list (list string)) :
  count_char pipe (pipe_prefix ++ pipeline stages)
  = (length stages - 1) + count_in_args pipe stages.
Proof.
  rewrite count_char_app. unfold pipeline, chain_params, count_in_args.
  rewrite count_char_join, map_map, length_map.
  rewrite (map_ext _ _ count_pipe_stage).
  change (count_char pipe pipe_prefix) with 0.
  change (count_char pipe " | ") with 1. lia.
Qed.

(** ** Sequencing *)

Lemma mbind_raise {A B} (m : M A) (k : A -> M B) e :
  outcome m = inl e -> mbind m k = (trace m, inl e).
Proof. destruct m as [tr [e'|x]]; cbn; intros H; [now inversion H | discriminate]. Qed.

Lemma mbind_ret {A B} (m : M A) (k : A -> M B) x :
  outcome m = inr x ->
  mbind m k = ((trace m ++ trace (k x))%list, outcome (k x)).
Proof. destruct m as [tr [e'|y]]; cbn; intros H; [discriminate | now inversion H]. Qed.

(** ** The steps of the invoker *)

Lemma prelude_trace env a :
  filter is_runtime_event (trace (prelude env a)) = [].
Proof.
  unfold prelude.
  destruct (volumes a) as [v|]; [destruct (merge_volumes env _ v) as [e|b]|];
    cbn; try reflexivity;
    destruct (snd (compose _ _)); reflexivity.
Qed.

Lemma filter_invocation_runtime (tr : list Event) :
  filter is_runtime_event tr = [] -> filter is_invocation tr = [].
Proof.
  induction tr as [|ev tr IH]; [reflexivity|].
  destruct ev; cbn; intros H; try discriminate; auto.
Qed.

Lemma filter_defer_runtime (tr : list Event) :
  filter is_runtime_event tr = [] -> deferred tr = [].
Proof.
  unfold deferred. induction tr as [|ev tr IH]; [reflexivity|].
  destruct ev; cbn; intros H; try discriminate; auto.
Qed.

(** case analysis on everything the lifecycle step branches on *)
Ltac lifecycle_cases ns d r :=
  unfold register_deferred, job_defer, global;
  destruct (py_eq d (VInt STOP)), (py_eq d (VInt FORGO)), (py_eq d (VInt RM)),
    (is_True r), (bound ns "singularityStop"), (bound ns "singularityKill").

(** what the lifecycle step does, by the directive, the flag and the
    two names it reads *)
Lemma register_deferred_cases ns d r n :
  let stop := Defer "singularityStop" n in
  let kill := Defer "singularityKill" n in
  let m := register_deferred ns d r n in
  (trace m = [] \/ trace m = [stop] \/ trace m = [kill] \/ trace m = [stop; kill])
  /\ (outcome m = inl (NameError "singularityStop")
      \/ outcome m = inl (NameError "singularityKill")
      \/ exists v, outcome m = inr v).
Proof. lifecycle_cases ns d r; cbn; split; eauto 6. Qed.

Lemma register_deferred_module d r n :
  trace (register_deferred [] d r n) = [].
Proof.
  unfold register_deferred, job_defer, global.
  destruct (py_eq d (VInt STOP)), (py_eq d (VInt FORGO)), (py_eq d (VInt RM)),
    (is_True r); reflexivity.
Qed.

(** a directive equal to FORGO registers nothing, in any namespace *)
Lemma register_deferred_FORGO ns r n :
  trace (register_deferred ns (VInt FORGO) r n) = []
  /\ outcome (register_deferred ns (VInt FORGO) r n) = inr (VBool false).
Proof. split; reflexivity. Qed.

Lemma register_deferred_no_invocation ns d r n :
  filter is_invocation (trace (register_deferred ns d r n)) = [].
Proof.
  destruct (register_deferred_cases ns d r n) as [[H|[H|[H|H]]] _];
    rewrite H; reflexivity.
Qed.

(** the invoker, step by step *)
Section Call.
Variables (ns : Namespace) (env : Env) (a : Args).

Local Abbreviation call := (apiSingularityCall ns env a).
Local Abbreviation before := (trace (prelude env a)).

Lemma apiSingularityCall_cases :
  call =
  match outcome (prelude env a) with
  | inl e => (before, inl e)
  | inr l =>
      if valid_deferParam (deferParam a) then
        match get_client env with
        | inl e => ((before ++ [GetClient])%list, inl e)
        | inr _ =>
            let m := register_deferred ns (deferParam a) (remove a)
                       (l_containerName l) in
            ((before ++ GetClient :: trace m)%list,
             match outcome m with
             | inl e => inl e
             | inr _ => inl (UnboundLocalError "auto_remove")
             end)
        end
      else
        (before,
         inl (AssertionError "Please provide a valid value for deferParam."))
  end.
Proof.
  unfold apiSingularityCall, validate, py_assert, acquire_client.
  destruct (prelude env a) as [tr [e|l]]; [reflexivity|].
  destruct (valid_deferParam (deferParam a));
    [|cbn; now rewrite app_nil_r].
  destruct (get_client env) as [e|[]]; [reflexivity|].
  cbn -[register_deferred].
  destruct (register_deferred ns _ _ _) as [tr' [e|v]]; cbn; [reflexivity|].
  now rewrite app_nil_r.
Qed.

(** No call of the invoker returns: every path ends in an exception. *)
Lemma apiSingularityCall_never_returns : exists e, outcome call = inl e.
Proof.
  rewrite apiSingularityCall_cases.
  destruct (outcome (prelude env a)) as [e|l]; [eexists; reflexivity|].
  destruct (valid_deferParam _); [|eexists; reflexivity].
  destruct (get_client env) as [e|u]; [eexists; reflexivity|].
  cbn -[register_deferred].
  destruct (outcome (register_deferred _ _ _ _)); eexists; reflexivity.
Qed.

(** No call of the invoker reaches [client.run] or [client.execute]. *)
Lemma apiSingularityCall_never_invokes : filter is_invocation (trace call) = [].
Proof.
  pose proof (filter_invocation_runtime _ (prelude_trace env a)) as Hp.
  rewrite apiSingularityCall_cases.
  destruct (outcome (prelude env a)) as [e|l]; [exact Hp|].
  destruct (valid_deferParam _); [|exact Hp].
  destruct (get_client env) as [e|u]; cbn [trace fst].
  - rewrite filter_app, Hp. reflexivity.
  - rewrite filter_app, Hp. cbn. apply register_deferred_no_invocation.
Qed.

End Call.

(** In the module as it stands no call registers a deferred action. *)
Lemma module_registers_nothing env a :
  deferred (trace (apiSingularityCall [] env a)) = [].
Proof.
  pose proof (filter_defer_runtime _ (prelude_trace env a)) as Hp.
  unfold deferred in *. rewrite apiSingularityCall_cases.
  destruct (outcome (prelude env a)) as [e|l]; [exact Hp|].
  destruct (valid_deferParam _); [|exact Hp].
  destruct (get_client env) as [e|u]; cbn [trace fst].
  - rewrite filter_app, Hp. reflexivity.
  - rewrite filter_app, Hp, register_deferred_module. reflexivity.
Qed.

(** With the two terminators present the lifecycle step registers the
    stop for STOP and the kill for RM or a true [remove]; STOP with a true
    [remove] registers both. *)
Lemma patched_lifecycle_table n :
  trace (register_deferred patched (VInt FORGO) (VBool true) n) = []
  /\ trace (register_deferred patched (VInt RM) (VBool false) n)
     = [Defer "singularityKill" n]
  /\ trace (register_deferred patched (VInt STOP) (VBool false) n)
     = [Defer "singularityStop" n]
  /\ trace (register_deferred patched VNone (VBool true) n)
     = [Defer "singularityKill" n]
  /\ trace (register_deferred patched VNone (VBool false) n) = []
  /\ trace (register_deferred patched (VInt STOP) (VBool true) n)
     = [Defer "singularityStop" n; Defer "singularityKill" n].
Proof. repeat split. Qed.

Lemma deferred_at_most_two ns env a :
  length (deferred (trace (apiSingularityCall ns env a))) <= 2.
Proof.
  pose proof (filter_defer_runtime _ (prelude_trace env a)) as Hp.
  unfold deferred in *. rewrite apiSingularityCall_cases.
  destruct (outcome (prelude env a)) as [e|l];
    [cbn [trace fst]; rewrite Hp; cbn; lia|].
  destruct (valid_deferParam _); [|cbn [trace fst]; rewrite Hp; cbn; lia].
  destruct (get_client env) as [e|u]; cbn [trace fst];
    rewrite filter_app, Hp; cbn -[register_deferred]; [lia|].
  destruct (register_deferred_cases ns (deferParam a) (remove a)
              (l_containerName l)) as [[H|[H|[H|H]]] _];
    rewrite H; cbn; lia.
Qed.

(** [detach] is read once, into the local [stream], which nothing reads. *)
Lemma detach_is_ignored ns env a b :
  apiSingularityCall ns env (with_detach b a) = apiSingularityCall ns env a.
Proof.
  unfold apiSingularityCall, prelude. cbn.
  destruct (volumes a) as [v|]; [destruct (merge_volumes env _ v) as [e|bd]|];
    cbn; try reflexivity;
    destruct (snd (compose _ _)); reflexivity.
Qed.

Lemma invoke_ignores_detach env a l b s :
  invoke env (with_detach b a)
    {| l_runscript := l_runscript l; l_stream := s; l_options := l_options l;
       l_user := l_user l; l_containerName := l_containerName l;
       l_working_dir := l_working_dir l; l_bind := l_bind l;
       l_command := l_command l |}
  = invoke env a l.
Proof. reflexivity. Qed.

Lemma capture_flags_are_ignored ns env a out err file :
  apiSingularityCall ns env (with_capture out err file a)
  = apiSingularityCall ns env a.
Proof. reflexivity. Qed.

(** what [invoke] does when it is given a client *)
Lemma invoke_trace env a l :
  filter is_defer (trace (invoke env a l)) = []
  /\ length (filter is_invocation (trace (invoke env a l))) = 1.
Proof.
  unfold invoke. destruct (l_runscript l); cbn.
  - destruct (client_execute env _); cbn; auto.
  - destruct (client_run env _); cbn; auto.
Qed.

(** ** The terminators with [docker] present *)

Lemma kill_loop_leaves_not_running {S} (d : Daemon S) name g :
  forall fuel status s s',
    kill_loop d fuel name g status s = Some (s', inr tt) ->
    (s' = s /\ status <> "running")
    \/ exists status', containers_get d name s' = inr status'
                       /\ status' <> "running".
Proof.
  induction fuel as [|fuel IH]; intros status s s' H; cbn in H;
    destruct (String.eqb_spec status "running") as [->|Hs]; cbn in H;
    try discriminate; try (inversion H; subst; now left).
  destruct (containers_get d name s) as [e|st0]; [discriminate|].
  destruct (if is_False g then container_kill d name s else container_stop d name s)
    as [e|s1]; [discriminate|].
  destruct (containers_get d name s1) as [e|st1] eqn:E1; [discriminate|].
  destruct (IH _ _ _ H) as [[-> Hn]|Hex]; [right; eauto | now right].
Qed.

Lemma dockerKill_absent {S} ns (d : Daemon S) fuel name g t s :
  bound ns "docker" = true ->
  containers_get d name s = inl NotFound ->
  dockerKill ns d fuel name g t s = Some (s, inr tt).
Proof. intros Hb Hg. unfold dockerKill. now rewrite Hb, Hg. Qed.

Lemma dockerKill_http_error {S} ns (d : Daemon S) fuel name g t s m :
  bound ns "docker" = true ->
  containers_get d name s = inl (HTTPError m) ->
  dockerKill ns d fuel name g t s
  = Some (s, inl (create_api_error_from_http_exception d (HTTPError m))).
Proof. intros Hb Hg. unfold dockerKill. now rewrite Hb, Hg. Qed.

Example dockerKill_patched_running :
  dockerKill patched sample_daemon 1 "c" (VBool false) 60 [("c", "running")]
  = Some ([("c", "exited")], inr tt).
Proof. reflexivity. Qed.

Example dockerKill_patched_unreachable :
  dockerKill patched unreachable_daemon 1 "c" (VBool false) 60 tt
  = Some (tt, inl (APIError "500")).
Proof. reflexivity. Qed.

(** what the statements after the bare [return] of the status probe would
    answer *)
Lemma containerIsRunning_after_return_spec {S} ns (d : Daemon S) name t s :
  bound ns "docker" = true ->
  snd (containerIsRunning_after_return ns d name t s)
  = match containers_get d name s with
    | inr status => inr (VBool (String.eqb status "running"))
    | inl NotFound => inr VNone
    | inl e => if is_HTTPError e
               then inl (create_api_error_from_http_exception d e)
               else inl e
    end.
Proof.
  intros Hb. unfold containerIsRunning_after_return. rewrite Hb. cbn.
  destruct (containers_get d name s) as [e|st]; [|reflexivity].
  destruct e; cbn; try reflexivity; destruct (is_HTTPError _); reflexivity.
Qed.

(** ** Validation *)

Lemma valid_deferParam_spec d :
  valid_deferParam d = true <->
  d = VNone \/ d = VInt 0 \/ d = VInt 1 \/ d = VInt 2 \/ exists b, d = VBool b.
Proof.
  unfold valid_deferParam, py_in, FORGO, STOP, RM. split.
  - destruct d as [|b|z|s]; cbn; intros H; eauto 6; try discriminate.
    rewrite !orb_false_r in H.
    apply orb_true_iff in H as [H|H]; [apply Z.eqb_eq in H; subst; auto|].
    apply orb_true_iff in H as [H|H]; apply Z.eqb_eq in H; subst; auto.
  - intros [->|[->|[->|[->|[b ->]]]]]; try reflexivity.
    destruct b; reflexivity.
Qed.

(** * The claims *)

(** C1. A call with the RM directive does not register one deferred
    force-kill.  In the module as it stands it registers no deferred action
    and ends in an exception, whatever the collaborators do; when the call
    reaches the lifecycle step, the exception is the [NameError] raised on
    [singularityKill] while the arguments of [job.defer] are evaluated,
    before the hook is called. *)
Theorem RM_registers_no_deferred_kill env a :
  deferParam a = VInt RM ->
  deferred (trace (apiSingularityCall [] env a)) = []
  /\ (exists e, outcome (apiSingularityCall [] env a) = inl e)
  /\ forall l,
      outcome (prelude env a) = inr l ->
      get_client env = inr tt ->
      outcome (apiSingularityCall [] env a) = inl (NameError "singularityKill").
Proof.
  intros Hd. split; [apply module_registers_nothing|].
  split; [apply apiSingularityCall_never_returns|].
  intros l Hp Hc. rewrite apiSingularityCall_cases, Hp, Hd, Hc. reflexivity.
Qed.

(** the RM directive on the docstring's call *)
Lemma RM_registers_no_deferred_kill_witness :
  deferred (trace (apiSingularityCall [] sample_env
                     (with_lifecycle (VInt RM) (VBool false) sample_args)))
  = []
  /\ (exists e, outcome (apiSingularityCall [] sample_env
                          (with_lifecycle (VInt RM) (VBool false) sample_args))
                = inl e)
  /\ forall l,
      outcome (prelude sample_env
                 (with_lifecycle (VInt RM) (VBool false) sample_args)) = inr l ->
      get_client sample_env = inr tt ->
      outcome (apiSingularityCall [] sample_env
                 (with_lifecycle (VInt RM) (VBool false) sample_args))
      = inl (NameError "singularityKill").
Proof.
  apply (RM_registers_no_deferred_kill sample_env
           (with_lifecycle (VInt RM) (VBool false) sample_args)).
  reflexivity.
Defined.

(** C2. The status probe returns None for every container name and asks
    the runtime nothing, also for a container the runtime reports as
    running, for which the statements after the bare [return] would have
    answered True. *)
Theorem containerIsRunning_always_None :
  (forall S name timeout (s : S),
      containerIsRunning name timeout s = (s, inr VNone))
  /\ containers_get sample_daemon "c" [("c", "running")] = inr "running"
  /\ snd (containerIsRunning "c" 60 [("c", "running")]) = inr VNone
  /\ snd (containerIsRunning_after_return patched sample_daemon "c" 60
            [("c", "running")]) = inr (VBool true).
Proof. repeat split. Qed.

(** C3. The graceful stop requests nothing: [dockerStop] returns at once
    and leaves the daemon as it was, so a running container is still
    running afterwards. *)
Theorem dockerStop_requests_nothing :
  (forall S name (s : S), dockerStop name s = (s, inr tt))
  /\ containers_get sample_daemon "c" (fst (dockerStop "c" [("c", "running")]))
     = inr "running".
Proof. split; reflexivity. Qed.

(** C4. A call with detach=True and no output capture returns no handle:
    like every call it ends in an exception without calling the client's
    [run] or [execute], and the value of [detach] changes nothing.  The
    docstring's call with detach=True raises on the read of [auto_remove]. *)
Theorem detached_call_returns_no_handle :
  (forall ns env a,
      (exists e, outcome (apiSingularityCall ns env a) = inl e)
      /\ filter is_invocation (trace (apiSingularityCall ns env a)) = []
      /\ forall b, apiSingularityCall ns env (with_detach b a)
                   = apiSingularityCall ns env a)
  /\ apiSingularityCall [] sample_env (with_detach true sample_args)
     = ([LogDebug (CmdStr "faidx /tmp/ref.fasta"); GetClient],
        inl (UnboundLocalError "auto_remove")).
Proof.
  split; [|reflexivity]. intros ns env a. repeat split.
  - apply apiSingularityCall_never_returns.
  - apply apiSingularityCall_never_invokes.
  - intros b. apply detach_is_ignored.
Qed.

(** C5, as stated, fails: the stages [echo a] and [grep a] are composed
    without quotes around the safe words. *)
Lemma echo_grep_composed_unquoted :
  compose None (Nested [["echo"; "a"]; ["grep"; "a"]])
  = (Some ["/bin/bash"; "-c"],
     Some (CmdList ["/bin/bash"; "-c"; "set -eo pipefail && echo a | grep a"]))
  /\ "set -eo pipefail && echo a | grep a"
     <> pipe_prefix ++ "echo 'a' | grep 'a'".
Proof. split; [reflexivity | cbn; discriminate]. Qed.

(** C5, amended.  For a non-empty nested list the composer returns the
    runscript list followed by one string: the pipefail guard, then the
    stages, each the space-joined quoted arguments of one inner list,
    joined by [ | ].  The [|] characters of that string are the N-1
    separators and those inside the arguments.  The stages [echo a] and
    [grep a] give [set -eo pipefail && echo a | grep a]. *)
Theorem compose_nested_pipeline rs stages :
  stages <> [] ->
  compose rs (Nested stages)
  = (Some (wrap_runscript rs),
     Some (CmdList
             (wrap_runscript rs ++
              [(pipe_prefix ++
                join " | " (map (fun st => join " " (map quote st)) stages))%string])%list))
  /\ count_char pipe (pipe_prefix ++ pipeline stages)
     = (length stages - 1) + count_in_args pipe stages
  /\ pipe_prefix ++ pipeline [["echo"; "a"]; ["grep"; "a"]]
     = "set -eo pipefail && echo a | grep a".
Proof.
  intros Hne. destruct stages as [|st stages]; [contradiction|].
  repeat split. apply count_pipe_pipeline.
Qed.

(** three stages, two separators *)
Lemma compose_nested_pipeline_witness :
  compose None (Nested [["a"]; ["b"]; ["c"]])
  = (Some (wrap_runscript None),
     Some (CmdList
             (wrap_runscript None ++
              [(pipe_prefix ++
                join " | " (map (fun st => join " " (map quote st))
                              [["a"]; ["b"]; ["c"]]))%string])%list))
  /\ count_char pipe (pipe_prefix ++ pipeline [["a"]; ["b"]; ["c"]])
     = (length [["a"]; ["b"]; ["c"]] - 1)
       + count_in_args pipe [["a"]; ["b"]; ["c"]]
  /\ pipe_prefix ++ pipeline [["echo"; "a"]; ["grep"; "a"]]
     = "set -eo pipefail && echo a | grep a".
Proof. apply compose_nested_pipeline. discriminate. Defined.

(** C6. For every non-empty flat list P of strings the composer returns
    the quoted elements joined by single spaces, and the shell's token
    recognition, with the quoting removed, gives back P: one literal word
    for each element, in order, and no operator, comment or expansion. *)
Theorem flat_command_resplits rs P :
  P <> [] ->
  compose rs (Flat P)
  = (Some (wrap_runscript rs), Some (CmdStr (join " " (map quote P))))
  /\ tokenize (join " " (map quote P)) = Tokens (map literal_word P).
Proof.
  intros Hne. split.
  - destruct P; [contradiction | reflexivity].
  - apply tokenize_flat_command.
Qed.

(** the example of line 183 *)
Lemma flat_command_resplits_witness :
  compose None (Flat ["echo"; "the Oread"])
  = (Some (wrap_runscript None),
     Some (CmdStr (join " " (map quote ["echo"; "the Oread"]))))
  /\ tokenize (join " " (map quote ["echo"; "the Oread"]))
     = Tokens (map literal_word ["echo"; "the Oread"]).
Proof. apply flat_command_resplits. discriminate. Defined.

(** C7. A call whose deferParam is not equal to None, FORGO, STOP or RM
    ends in an exception, which is the AssertionError of line 204 whenever
    the statements before it completed, and its trace holds no call of the
    runtime client and no registration of a deferred action. *)
Theorem invalid_deferParam_fails_fast ns env a :
  valid_deferParam (deferParam a) = false ->
  (exists e, outcome (apiSingularityCall ns env a) = inl e
             /\ forall l, outcome (prelude env a) = inr l ->
                  e = AssertionError "Please provide a valid value for deferParam.")
  /\ filter is_runtime_event (trace (apiSingularityCall ns env a)) = [].
Proof.
  intros Hv. pose proof (prelude_trace env a) as Hp.
  rewrite apiSingularityCall_cases, Hv.
  destruct (outcome (prelude env a)) as [e|l]; split; try exact Hp;
    eexists; (split; [reflexivity|]); intros l' Hl; [discriminate | reflexivity].
Qed.

(** deferParam=3 on the docstring's call *)
Lemma invalid_deferParam_fails_fast_witness :
  (exists e, outcome (apiSingularityCall [] sample_env
                        (with_lifecycle (VInt 3) (VBool true) sample_args)) = inl e
             /\ forall l, outcome (prelude sample_env
                                     (with_lifecycle (VInt 3) (VBool true) sample_args))
                          = inr l ->
                  e = AssertionError "Please provide a valid value for deferParam.")
  /\ filter is_runtime_event
       (trace (apiSingularityCall [] sample_env
                 (with_lifecycle (VInt 3) (VBool true) sample_args))) = [].
Proof. apply invalid_deferParam_fails_fast. reflexivity. Defined.

(** C8. Force-kill does not return normally for a name the runtime does
    not know: in the module as it stands every call of [dockerKill] raises
    [NameError] on [docker] at line 262, before the daemon is asked
    anything. *)
Theorem dockerKill_raises_NameError S (d : Daemon S) fuel name gentleKill
    timeout (s : S) :
  dockerKill [] d fuel name gentleKill timeout s
  = Some (s, inl (NameError "docker")).
Proof. reflexivity. Qed.


(** C10, as stated, fails: a call whose deferParam passes validation and
    for which [get_client] raises at line 207 ends with that exception,
    which is no [NameError], and never comes to read [auto_remove]. *)
Lemma client_failure_is_no_NameError :
  valid_deferParam (deferParam sample_args) = true
  /\ outcome (apiSingularityCall [] unavailable_env sample_args)
     = inl (OtherError "AttributeError")
  /\ is_NameError (OtherError "AttributeError") = false.
Proof. repeat split. Qed.

(** C10, amended.  No call returns and none calls the client's [run] or
    [execute].  A call whose deferParam passes validation and which obtains
    the client raises a [NameError] before that; when it comes to line 220,
    the lifecycle step having returned, it is the [UnboundLocalError] of
    the read of [auto_remove] before any assignment. *)
Theorem validated_call_raises_NameError ns env a :
  (exists e, outcome (apiSingularityCall ns env a) = inl e)
  /\ filter is_invocation (trace (apiSingularityCall ns env a)) = []
  /\ forall l,
      outcome (prelude env a) = inr l ->
      valid_deferParam (deferParam a) = true ->
      get_client env = inr tt ->
      exists e,
        outcome (apiSingularityCall ns env a) = inl e
        /\ is_NameError e = true
        /\ forall v,
            outcome (register_deferred ns (deferParam a) (remove a)
                       (l_containerName l)) = inr v ->
            e = UnboundLocalError "auto_remove".
Proof.
  split; [apply apiSingularityCall_never_returns|].
  split; [apply apiSingularityCall_never_invokes|].
  intros l Hp Hv Hc.
  rewrite apiSingularityCall_cases, Hp, Hv, Hc. cbn -[register_deferred bound].
  destruct (register_deferred_cases ns (deferParam a) (remove a)
              (l_containerName l)) as [_ [H|[H|[v H]]]];
    rewrite H; eexists; repeat split; auto; intros v' Hv'; discriminate Hv'.
Qed.

(** the docstring's call, which registers nothing and comes to line 220 *)
Lemma validated_call_raises_NameError_witness :
  exists e,
    outcome (apiSingularityCall [] sample_env sample_args) = inl e
    /\ is_NameError e = true
    /\ forall v,
        outcome (register_deferred [] (deferParam sample_args)
                   (remove sample_args) "toiljob--q83vEjRWeJ-a") = inr v ->
        e = UnboundLocalError "auto_remove".
Proof.
  destruct (validated_call_raises_NameError [] sample_env sample_args)
    as (_ & _ & H).
  exact (H _ eq_refl eq_refl eq_refl).
Defined.

(** * Further properties *)

(** ** Container naming *)

Lemma replace_char_filter c (s : string) :
  replace_char c EmptyString s = string_filter (fun d => negb (Ascii.eqb d c)) s.
Proof.
  induction s as [|d s IH]; [reflexivity|].
  cbn. destruct (Ascii.eqb d c); cbn; now rewrite IH.
Qed.

Lemma string_filter_filter p q (s : string) :
  string_filter p (string_filter q s) = string_filter (fun c => q c && p c) s.
Proof.
  induction s as [|d s IH]; [reflexivity|].
  cbn. destruct (q d); cbn; [destruct (p d)|]; now rewrite IH.
Qed.

Lemma string_filter_ext p q (s : string) :
  (forall c, p c = q c) -> string_filter p s = string_filter q s.
Proof.
  intros H. induction s as [|d s IH]; [reflexivity|].
  cbn. now rewrite H, IH.
Qed.

Lemma count_char_filtered p c (s : string) :
  p c = false -> count_char c (string_filter p s) = 0.
Proof.
  intros H. induction s as [|d s IH]; [reflexivity|].
  cbn. destruct (p d) eqn:E; [|exact IH].
  cbn. destruct (Ascii.eqb_spec d c) as [->|_]; [congruence | exact IH].
Qed.

Lemma string_filter_all p (s : string) :
  (forall c, count_char c s <> 0 -> p c = true) -> string_filter p s = s.
Proof.
  induction s as [|d s IH]; intros H; [reflexivity|].
  cbn. rewrite (H d) by (cbn; rewrite Ascii.eqb_refl; lia).
  rewrite IH; [reflexivity|].
  intros c Hc. apply H. cbn. lia.
Qed.

(** X1. The container name is the job label, two dashes and the random
    suffix with every quote, double quote and underscore taken out and all
    other characters kept in order; none of the three characters occurs in
    it. *)
Theorem getContainerName_strips env job :
  getContainerName env job
  = string_filter (fun c => negb (stripped_char c))
      (job ++ "--" ++ urandom_b64 env)
  /\ count_char squote (getContainerName env job) = 0
  /\ count_char dquote (getContainerName env job) = 0
  /\ count_char "_" (getContainerName env job) = 0.
Proof.
  assert (E : getContainerName env job
              = string_filter (fun c => negb (stripped_char c))
                  (job ++ "--" ++ urandom_b64 env)).
  { unfold getContainerName, join. cbn [String.concat].
    rewrite !replace_char_filter, !string_filter_filter.
    apply string_filter_ext. intros c. unfold stripped_char.
    destruct (Ascii.eqb c squote), (Ascii.eqb c dquote), (Ascii.eqb c "_");
      reflexivity. }
  rewrite E. repeat split; apply count_char_filtered; reflexivity.
Qed.

(** X2. A job label and a suffix without quotes, double quotes and
    underscores are kept whole: the name is label, two dashes, suffix. *)
Theorem getContainerName_plain env job :
  (forall c, stripped_char c = true ->
             count_char c job = 0 /\ count_char c (urandom_b64 env) = 0) ->
  getContainerName env job = job ++ "--" ++ urandom_b64 env.
Proof.
  intros H. destruct (getContainerName_strips env job) as [-> _].
  apply string_filter_all. intros c Hc.
  destruct (stripped_char c) eqn:E; [|reflexivity].
  destruct (H c E) as [Hj Hu]. exfalso. apply Hc.
  rewrite !count_char_app, Hj, Hu.
  destruct c as [[] [] [] [] [] [] [] []]; try discriminate E; reflexivity.
Qed.

Lemma getContainerName_plain_witness :
  getContainerName sample_env "job7" = "job7" ++ "--" ++ urandom_b64 sample_env.
Proof.
  apply getContainerName_plain. intros c Hc.
  destruct c as [[] [] [] [] [] [] [] []]; try discriminate Hc;
    split; reflexivity.
Defined.

(** ** Pipelines through the shell *)

Lemma lex_pipe_token (rest : string) :
  lex Plain None (String pipe (String " " rest))
  = delimited [TOperator "|"] (lex Plain None rest).
Proof. cbn. now rewrite !delimited_nil. Qed.

Lemma lex_pipeline (stages : list (list string)) :
  lex Plain None (pipeline stages)
  = Tokens (intercalate [TOperator "|"] (map (map literal_word) stages)).
Proof.
  unfold pipeline, chain_params, join.
  induction stages as [|x stages IH]; [reflexivity|].
  destruct stages as [|y stages].
  - cbn [map String.concat intercalate]. apply tokenize_flat_command.
  - change (String.concat " | " (map (fun command => String.concat " " (map quote command))
                                  (x :: y :: stages)))
      with (flat_command x
            ++ String " " (String pipe (String " "
                 (String.concat " | "
                    (map (fun command => String.concat " " (map quote command))
                       (y :: stages)))))).
    rewrite lex_flat_then_blank, lex_pipe_token, IH. reflexivity.
Qed.

Lemma lex_pipe_prefix (rest : string) :
  lex Plain None (pipe_prefix ++ rest)
  = delimited [literal_word "set"; literal_word "-eo"; literal_word "pipefail";
               TOperator "&&"] (lex Plain None rest).
Proof. cbn. now destruct (lex Plain None rest). Qed.

(** X3. The string a nested parameter list is composed to is recognised by
    the shell as the words [set -eo pipefail], the operator [&&], and then
    the arguments of the stages as they were given, each one literal word,
    with one operator [|] between consecutive stages and no other operator,
    comment or expansion: an argument that is itself a bar or holds shell
    characters stays a word. *)
Theorem pipeline_resplits (stages : list (list string)) :
  tokenize (pipe_prefix ++ pipeline stages)
  = Tokens ([literal_word "set"; literal_word "-eo"; literal_word "pipefail";
             TOperator "&&"]
            ++ intercalate [TOperator "|"] (map (map literal_word) stages))%list.
Proof.
  unfold tokenize. rewrite lex_pipe_prefix, lex_pipeline. reflexivity.
Qed.

Example pipeline_resplits_sample :
  tokenize (pipe_prefix ++ pipeline [["grep"; "a b"]; []; ["wc"; "|"; "it's"]])
  = Tokens [TWord "set" true; TWord "-eo" true; TWord "pipefail" true;
            TOperator "&&"; TWord "grep" true; TWord "a b" true;
            TOperator "|"; TOperator "|"; TWord "wc" true; TWord "|" true;
            TWord "it's" true].
Proof. reflexivity. Qed.

(** the bar as an argument and the bar between stages are told apart *)
Example pipeline_bar_argument :
  tokenize (pipe_prefix ++ pipeline [["a"; "|"; "b"]])
  <> tokenize (pipe_prefix ++ pipeline [["a"]; ["b"]]).
Proof. cbn. discriminate. Qed.

(** ** The runscript and the command *)

Lemma prelude_locals env a l :
  outcome (prelude env a) = inr l ->
  l_runscript l
  = fst (compose (py_or (runscript a) (entrypoint a))
           (match parameters a with None => Flat [] | Some p => p end))
  /\ l_command l
     = snd (compose (py_or (runscript a) (entrypoint a))
              (match parameters a with None => Flat [] | Some p => p end))
  /\ l_containerName l
     = match containerName a with
       | None => getContainerName env (job a)
       | Some n => n
       end.
Proof.
  unfold prelude.
  destruct (volumes a) as [v|]; [destruct (merge_volumes env _ v) as [e|b]|];
    cbn; try discriminate;
    destruct (snd (compose _ _)) eqn:E; cbn; intros H; inversion H; cbn;
    rewrite ?E; auto.
Qed.

(** X4. After lines 133-199 the locals [runscript] and [command] are both
    None when the parameters are missing or empty, whatever the runscript
    and entrypoint arguments are; with a non-empty parameter list the
    command is composed and [runscript] is the one-element list of the
    runscript argument when that is a non-empty string, else of the
    entrypoint when one is given, else it is /bin/bash -c. *)
Theorem runscript_by_parameters env a l :
  outcome (prelude env a) = inr l ->
  if params_empty (parameters a)
  then l_runscript l = None /\ l_command l = None
  else l_command l <> None
       /\ l_runscript l
          = Some (match runscript a with
                  | Some (String c r) => [String c r]
                  | _ => match entrypoint a with
                         | Some e => [e]
                         | None => ["/bin/bash"; "-c"]
                         end
                  end).
Proof.
  intros H. destruct (prelude_locals env a l H) as (Hr & Hc & _).
  rewrite Hr, Hc.
  destruct (parameters a) as [[[|x args]|[|st stages]]|]; cbn;
    try (split; reflexivity);
    (split; [discriminate|]);
    destruct (runscript a) as [[|c r]|]; cbn;
    destruct (entrypoint a); reflexivity.
Qed.

Lemma runscript_by_parameters_witness :
  Some (CmdStr "faidx /tmp/ref.fasta") <> None
  /\ Some ["/bin/bash"; "-c"]
     = Some (match runscript sample_args with
             | Some (String c r) => [String c r]
             | _ => match entrypoint sample_args with
                    | Some e => [e]
                    | None => ["/bin/bash"; "-c"]
                    end
             end).
Proof.
  exact (runscript_by_parameters sample_env sample_args
           {| l_runscript := Some ["/bin/bash"; "-c"]; l_stream := false;
              l_options := []; l_user := "1000:1000";
              l_containerName := "toiljob--q83vEjRWeJ-a";
              l_working_dir := "/tmp"; l_bind := BindStr "/tmp:/data";
              l_command := Some (CmdStr "faidx /tmp/ref.fasta") |} eq_refl).
Defined.

(** ** The call of the client *)

(** The invocation step calls the client once, with stream=False, the
    image, the composed command, the bind and the keyword arguments; what
    the client returns is returned, and an exception of the client is
    logged once and raised again as it is. *)
Theorem invoke_calls_once_and_reraises env a l :
  exists c,
    call_stream c = false /\ call_image c = image a
    /\ call_command c = l_command l /\ call_runscript c = l_runscript l
    /\ call_bind c = l_bind l /\ call_kwargs c = kwargs a
    /\ let reply := match l_runscript l with
                    | None => client_run env c
                    | Some _ => client_execute env c
                    end in
       outcome (invoke env a l) = reply
       /\ filter is_invocation (trace (invoke env a l))
          = [match l_runscript l with
             | None => ClientRun c
             | Some _ => ClientExecute c
             end]
       /\ filter (fun ev => negb (is_invocation ev)) (trace (invoke env a l))
          = match reply with
            | inl e => [LogError e (l_command l)]
            | inr _ => []
            end.
Proof.
  exists {| call_image := image a; call_command := l_command l;
            call_runscript := l_runscript l; call_stream := false;
            call_bind := l_bind l; call_kwargs := kwargs a |}.
  repeat split; unfold invoke;
    destruct (l_runscript l); cbn;
    try destruct (client_execute env _);
    try destruct (client_run env _); reflexivity.
Qed.

(** ** Directives given as booleans *)

Lemma prelude_with_lifecycle env a d r :
  prelude env (with_lifecycle d r a) = prelude env a.
Proof. reflexivity. Qed.

(** X5. The directive is compared by equality, so a boolean passes the
    validation and acts as the integer it equals: True as STOP, False as
    FORGO.  A call with the boolean does what the call with the integer
    does. *)
Theorem boolean_directive_acts_as_integer ns env a r b :
  valid_deferParam (VBool b) = true
  /\ apiSingularityCall ns env (with_lifecycle (VBool b) r a)
     = apiSingularityCall ns env (with_lifecycle (VInt (Z.b2z b)) r a).
Proof.
  split; [now destruct b|].
  rewrite !apiSingularityCall_cases, !prelude_with_lifecycle.
  destruct b; reflexivity.
Qed.

(** ** The kill loop, where [docker] is bound *)

Lemma kill_handlers_success {S} (d : Daemon S) r :
  kill_handlers d r = inr tt -> r = inr tt \/ r = inl NotFound.
Proof.
  destruct r as [e|[]]; [|now left].
  destruct e; cbn; intros H; try discriminate H; auto;
    destruct (is_HTTPError _); discriminate H.
Qed.

Lemma kill_loop_final {S} (d : Daemon S) name g :
  forall fuel status s s' r,
    kill_loop d fuel name g status s = Some (s', r) ->
    kill_handlers d r = inr tt ->
    (s' = s /\ status <> "running")
    \/ (exists st, containers_get d name s' = inr st /\ st <> "running")
    \/ containers_get d name s' = inl NotFound
    \/ kill_request d g name s' = inl NotFound.
Proof.
  unfold kill_request.
  induction fuel as [|fuel IH]; intros status s s' r H Hr; cbn in H;
    destruct (String.eqb_spec status "running") as [->|Hs]; cbn in H;
    try discriminate; try (inversion H; subst; now left).
  destruct (containers_get d name s) as [e|st0] eqn:E0.
  { inversion H; subst.
    destruct (kill_handlers_success d _ Hr) as [Hx|Hx]; inversion Hx; subst.
    auto. }
  destruct (is_False g) eqn:Eg.
  - destruct (container_kill d name s) as [e|s1] eqn:E1.
    { inversion H; subst.
      destruct (kill_handlers_success d _ Hr) as [Hx|Hx]; inversion Hx; subst.
      auto. }
    destruct (containers_get d name s1) as [e|st1] eqn:E2.
    { inversion H; subst.
      destruct (kill_handlers_success d _ Hr) as [Hx|Hx]; inversion Hx; subst.
      auto. }
    destruct (IH _ _ _ _ H Hr) as [[-> Hn]|Hx]; [right; left; eauto | now right].
  - destruct (container_stop d name s) as [e|s1] eqn:E1.
    { inversion H; subst.
      destruct (kill_handlers_success d _ Hr) as [Hx|Hx]; inversion Hx; subst.
      auto. }
    destruct (containers_get d name s1) as [e|st1] eqn:E2.
    { inversion H; subst.
      destruct (kill_handlers_success d _ Hr) as [Hx|Hx]; inversion Hx; subst.
      auto. }
    destruct (IH _ _ _ _ H Hr) as [[-> Hn]|Hx]; [right; left; eauto | now right].
Qed.

(** X6. Where [docker] is bound, a normal return of [dockerKill] means
    that, in the state the daemon is left in, the container is reported
    with a status other than running, or is reported as not found, or the
    kill (stop) request for it is answered with not found. *)
Theorem dockerKill_returns_when_not_running {S} ns (d : Daemon S) fuel name g
    t s s' :
  bound ns "docker" = true ->
  dockerKill ns d fuel name g t s = Some (s', inr tt) ->
  (exists st, containers_get d name s' = inr st /\ st <> "running")
  \/ containers_get d name s' = inl NotFound
  \/ kill_request d g name s' = inl NotFound.
Proof.
  intros Hb. unfold dockerKill. rewrite Hb. cbn.
  destruct (containers_get d name s) as [e|status] eqn:E0.
  - intros H. inversion H; subst.
    destruct (kill_handlers_success d (inl e)) as [Hx|Hx];
      [assumption | discriminate | inversion Hx; subst; auto].
  - destruct (kill_loop d fuel name g status s) as [[s1 r]|] eqn:EL;
      [|discriminate].
    intros H. inversion H; subst.
    destruct (kill_loop_final d name g _ _ _ _ _ EL) as [[-> Hn]|Hx]; eauto.
Qed.

Lemma dockerKill_returns_when_not_running_witness :
  (exists st, containers_get sample_daemon "c" [("c", "exited")] = inr st
              /\ st <> "running")
  \/ containers_get sample_daemon "c" [("c", "exited")] = inl NotFound
  \/ kill_request sample_daemon (VBool false) "c" [("c", "exited")] = inl NotFound.
Proof.
  apply (dockerKill_returns_when_not_running patched sample_daemon 1 "c"
           (VBool false) 60 [("c", "running")] [("c", "exited")]);
    reflexivity.
Defined.

(** X7. Where [docker] is bound, the loop of [dockerKill] has no bound of
    its own: while the daemon accepts each request and goes on reporting
    the container as running, no number of turns leaves the loop, whatever
    the timeout argument. *)
Theorem dockerKill_keeps_requesting {S} ns (d : Daemon S) (I : S -> Prop)
    name g t :
  bound ns "docker" = true ->
  (forall s, I s ->
     containers_get d name s = inr "running"
     /\ exists s1, kill_request d g name s = inr s1 /\ I s1) ->
  forall fuel s, I s -> dockerKill ns d fuel name g t s = None.
Proof.
  intros Hb HI fuel s Hs. unfold dockerKill. rewrite Hb. cbn.
  destruct (HI s Hs) as [Hg _]. rewrite Hg.
  assert (L : forall n s0, I s0 -> kill_loop d n name g "running" s0 = None).
  { intros n. induction n as [|n IH]; intros s0 Hs0; [reflexivity|].
    cbn. destruct (HI s0 Hs0) as [Hg0 [s1 [Hk Hs1]]]. rewrite Hg0.
    unfold kill_request in Hk.
    destruct (is_False g); rewrite Hk;
      destruct (HI s1 Hs1) as [Hg1 _]; rewrite Hg1; now apply IH. }
  now rewrite L.
Qed.

Lemma dockerKill_keeps_requesting_witness :
  dockerKill patched stubborn_daemon 1000 "c" (VBool false) 60 0%nat = None.
Proof.
  apply (dockerKill_keeps_requesting patched stubborn_daemon (fun _ => True)
           "c" (VBool false) 60 eq_refl);
    [|exact I].
  intros s _. split; [reflexivity|]. eexists. split; [reflexivity | exact I].
Defined.

(** ** Walking the job store *)

Lemma Dir_induction (P : Dir -> Prop) :
  (forall filenames subdirs,
      Forall (fun nd => P (snd nd)) subdirs -> P (MkDir filenames subdirs)) ->
  forall d, P d.
Proof.
  intros H. fix IH 1. intros [filenames subdirs]. apply H.
  induction subdirs as [|[n sub] r IHr]; constructor; [apply IH | exact IHr].
Qed.

Lemma os_walk_unfold top filenames subdirs :
  os_walk top (MkDir filenames subdirs)
  = (top, map fst subdirs, filenames)
    :: flat_map (fun nd => os_walk (os_path_join top (fst nd)) (snd nd)) subdirs.
Proof.
  cbn [os_walk]. f_equal.
  induction subdirs as [|[n sub] r IH]; [reflexivity|].
  cbn [flat_map fst snd]. now rewrite <- IH.
Qed.

Lemma plain_names_unfold filenames subdirs :
  plain_names (MkDir filenames subdirs)
  = forallb (fun n => negb (starts_with_sep n)) filenames
    && forallb (fun nd => negb (starts_with_sep (fst nd)) && plain_names (snd nd))
         subdirs.
Proof.
  cbn [plain_names]. f_equal.
  induction subdirs as [|[n sub] r IH]; [reflexivity|].
  cbn [forallb fst snd]. now rewrite <- IH.
Qed.

Lemma walk_lists_files (d : Dir) : forall top root name,
  (exists dirnames filenames,
      In (root, dirnames, filenames) (os_walk top d) /\ In name filenames)
  <-> file_at top d root name.
Proof.
  induction d as [filenames subdirs IH] using Dir_induction.
  intros top root name. rewrite os_walk_unfold. split.
  - intros (dn & fs & [Hh|Hb] & Hn).
    + inversion Hh; subst. now constructor.
    + apply in_flat_map in Hb as ([n sub] & Hin & Hw).
      rewrite Forall_forall in IH.
      apply (file_below _ _ _ n sub); [exact Hin|].
      apply (IH _ Hin). eauto.
  - intros H. inversion H; subst.
    + exists (map fst subdirs), filenames. split; [now left | assumption].
    + rewrite Forall_forall in IH.
      match goal with
      | Hin : In (?n, ?sub) subdirs, Hf : file_at _ ?sub root name |- _ =>
          apply (IH _ Hin) in Hf; destruct Hf as (dn & fs & Hw & Hn);
          exists dn, fs; split; [right; apply in_flat_map; eauto | exact Hn]
      end.
Qed.

(** X8. [recursiveGlob] returns the joined path of exactly those files of
    the tree below the absolute directory whose name matches the pattern:
    a path is in the result if and only if it is [os.path.join(root, name)]
    for a file [name] of a directory [root] of the walk with
    [fnmatch(name, pattern)]; where there is no such directory the result
    is empty. *)
Theorem recursiveGlob_matching_files h directoryname glob_pattern path :
  In path (recursiveGlob h directoryname glob_pattern)
  <-> exists d root name,
        host_directory h (host_abspath h directoryname) = Some d
        /\ file_at (host_abspath h directoryname) d root name
        /\ host_fnmatch h name glob_pattern = true
        /\ path = os_path_join root name.
Proof.
  unfold recursiveGlob. split.
  - intros H. apply in_flat_map in H as ([[root dn] fs] & Hw & Hp).
    apply in_map_iff in Hp as (name & <- & Hf).
    apply filter_In in Hf as [Hf Hm]. cbn in *.
    destruct (host_directory h (host_abspath h directoryname)) as [d|];
      [|contradiction].
    exists d, root, name. repeat split; auto.
    apply walk_lists_files. eauto.
  - intros (d & root & name & Hd & Hf & Hm & ->). rewrite Hd.
    apply walk_lists_files in Hf as (dn & fs & Hw & Hn).
    apply in_flat_map. exists (root, dn, fs). split; [exact Hw|].
    apply in_map, filter_In. auto.
Qed.

Example recursiveGlob_sample :
  recursiveGlob sample_host "/store" "*.txt" = ["/store/a.txt"; "/store/tmp/c.txt"]
  /\ recursiveGlob sample_host "/store" "*"
     = ["/store/a.txt"; "/store/b.log"; "/store/tmp/c.txt"]
  /\ recursiveGlob sample_host "/nowhere" "*" = [].
Proof. repeat split. Qed.

Lemma os_path_join_extends a b :
  starts_with_sep b = false -> exists rest, os_path_join a b = a ++ rest.
Proof.
  intros H. unfold os_path_join. rewrite H.
  destruct a as [|c a]; [now exists b|].
  destruct (ends_with_sep (String c a)); eauto.
Qed.

Lemma file_at_under top d root name :
  file_at top d root name -> plain_names d = true ->
  (exists rest, root = top ++ rest) /\ starts_with_sep name = false.
Proof.
  induction 1 as [top fs ds name Hin | top fs ds dn sub root name Hin Hf IH];
    rewrite plain_names_unfold; intros Hp;
    apply andb_true_iff in Hp as [Hfs Hds].
  - split; [exists EmptyString; now rewrite append_nil_r|].
    rewrite forallb_forall in Hfs. specialize (Hfs _ Hin).
    now apply negb_true_iff in Hfs.
  - rewrite forallb_forall in Hds. specialize (Hds _ Hin). cbn in Hds.
    apply andb_true_iff in Hds as [Hn Hsub]. apply negb_true_iff in Hn.
    destruct (IH Hsub) as [[rest ->] Hname]. split; [|exact Hname].
    destruct (os_path_join_extends top dn Hn) as [x ->].
    exists (x ++ rest). now rewrite append_assoc.
Qed.

(** X9. Every path [recursiveGlob] returns starts with the absolute path of
    the directory it was given, provided no name in the tree starts with a
    separator. *)
Theorem recursiveGlob_under_directory h directoryname glob_pattern d path :
  host_directory h (host_abspath h directoryname) = Some d ->
  plain_names d = true ->
  In path (recursiveGlob h directoryname glob_pattern) ->
  exists rest, path = host_abspath h directoryname ++ rest.
Proof.
  intros Hd Hp Hin.
  apply recursiveGlob_matching_files in Hin
    as (d' & root & name & Hd' & Hf & _ & ->).
  rewrite Hd in Hd'. inversion Hd'; subst d'.
  destruct (file_at_under _ _ _ _ Hf Hp) as [[rest ->] Hn].
  destruct (os_path_join_extends (host_abspath h directoryname ++ rest) name Hn)
    as [x ->].
  exists (rest ++ x). now rewrite append_assoc.
Qed.

Lemma recursiveGlob_under_directory_witness :
  exists rest, "/store/tmp/c.txt" = host_abspath sample_host "/store" ++ rest.
Proof.
  apply (recursiveGlob_under_directory sample_host "/store" "*.txt" sample_tree);
    [reflexivity | reflexivity |].
  right. left. reflexivity.
Defined.

(** ** Listing the job store *)

Lemma print_one_other st gfile n :
  n <> list_of_jobstore_files -> snd (print_one st gfile) n = snd st n.
Proof.
  intros Hn. apply String.eqb_neq in Hn.
  unfold print_one, file_write, open_w. cbn. now rewrite Hn.
Qed.

Lemma print_one_list st gfile :
  snd (print_one st gfile) list_of_jobstore_files = Some (gfile ++ newline).
Proof. reflexivity. Qed.

Lemma print_all_log (hits : list string) : forall st,
  fst (fold_left print_one hits st)
  = (fst st ++ map (fun g => LogInfo "File: %s" [g]) hits)%list.
Proof.
  induction hits as [|g hits IH]; intros st; cbn [fold_left map].
  - now rewrite app_nil_r.
  - rewrite IH. cbn. now rewrite <- app_assoc.
Qed.

Lemma print_all_other (hits : list string) n : forall st,
  n <> list_of_jobstore_files ->
  snd (fold_left print_one hits st) n = snd st n.
Proof.
  induction hits as [|g hits IH]; intros st Hn; [reflexivity|].
  cbn [fold_left]. rewrite IH by assumption. now apply print_one_other.
Qed.

(** X10. [printContentsOfJobStore] logs every file of the job store, but the
    list file it writes is opened anew for each of them: afterwards
    list_of_jobstore_files.txt holds the last file only, followed by a
    newline.  No other file is touched, and with an empty job store the
    list file is not touched either. *)
Theorem printContentsOfJobStore_keeps_last h store fs :
  let hits := recursiveGlob h store "*" in
  let done := printContentsOfJobStore h store fs in
  fst done = map (fun g => LogInfo "File: %s" [g]) hits
  /\ (forall n, n <> list_of_jobstore_files -> snd done n = fs n)
  /\ (hits = [] -> snd done list_of_jobstore_files = fs list_of_jobstore_files)
  /\ (forall before last,
        hits = (before ++ [last])%list ->
        snd done list_of_jobstore_files = Some (last ++ newline)).
Proof.
  cbn zeta. unfold printContentsOfJobStore. repeat split.
  - now rewrite print_all_log.
  - intros n Hn. now rewrite print_all_other.
  - intros ->. reflexivity.
  - intros before last ->. rewrite fold_left_app. reflexivity.
Qed.

Lemma printContentsOfJobStore_keeps_last_witness :
  snd (printContentsOfJobStore sample_host "/store" no_files)
    list_of_jobstore_files
  = Some ("/store/tmp/c.txt" ++ newline).
Proof.
  destruct (printContentsOfJobStore_keeps_last sample_host "/store" no_files)
    as (_ & _ & _ & H).
  exact (H ["/store/a.txt"; "/store/b.log"] "/store/tmp/c.txt" eq_refl).
Defined.

(** ** Fetching job store files *)

Lemma copy_hits_list_path h o l hits :
  localFilePath o = PathList l ->
  copy_hits h o hits
  = ([], match hits with [] => inr tt | _ :: _ => inl (join_error h) end).
Proof. intros H. destruct hits; cbn; [|rewrite H]; reflexivity. Qed.

Lemma fetch_patterns_list_path h o l (patterns : list string) :
  localFilePath o = PathList l ->
  fetch_patterns h o patterns
  = ([], match all_hits h (jobStore o) patterns with
         | [] => inr tt
         | _ :: _ => inl (join_error h)
         end).
Proof.
  intros H. unfold all_hits.
  induction patterns as [|p r IH]; [reflexivity|].
  cbn [fetch_patterns flat_map]. rewrite (copy_hits_list_path h o l _ H).
  destruct (recursiveGlob h (jobStore o) p); cbn; [now rewrite IH | reflexivity].
Qed.

(** X11. With [localFilePath] a list, as argparse delivers it for
    [nargs=1], [fetchJobStoreFiles] copies nothing: at the first hit of any
    pattern the join of line 62 raises, before a file is read; without any
    hit it returns having done nothing. *)
Theorem fetchJobStoreFiles_list_path h o l p :
  localFilePath o = PathList l ->
  fetchTheseJobStoreFiles o = Some p ->
  fetchJobStoreFiles h o
  = ([], match all_hits h (jobStore o) (iterate p) with
         | [] => inr tt
         | _ :: _ => inl (join_error h)
         end).
Proof.
  intros Hl Hp. unfold fetchJobStoreFiles. rewrite Hp.
  now apply fetch_patterns_list_path with (l := l).
Qed.

Lemma fetchJobStoreFiles_list_path_witness :
  fetchJobStoreFiles sample_host sample_options
  = ([], match all_hits sample_host (jobStore sample_options)
                 (iterate (PatternList ["*.txt"])) with
         | [] => inr tt
         | _ :: _ => inl (join_error sample_host)
         end).
Proof.
  apply (fetchJobStoreFiles_list_path sample_host sample_options ["/out"]);
    reflexivity.
Defined.

Lemma copy_hits_absolute h o s hits :
  localFilePath o = PathStr s -> starts_with_sep s = true ->
  (forall hit, readGlobalFile h hit s (useSymlinks o) = inr tt) ->
  copy_hits h o hits
  = (flat_map
       (fun hit =>
          [LogInfo "Copying job store file: %s to %s" [hit; s];
           ReadGlobalFile hit s (useSymlinks o)]) hits,
     inr tt).
Proof.
  intros Hl Hs Hr. induction hits as [|hit r IH]; [reflexivity|].
  cbn [copy_hits flat_map]. rewrite Hl. cbn [localFileID].
  unfold os_path_join. rewrite Hs, Hr, IH. reflexivity.
Qed.

(** X12. With [localFilePath] an absolute path, the join of line 62 yields
    that path for every hit: while the job store's reads succeed,
    [fetchJobStoreFiles] reads each hit of each pattern, in order, and all
    of them to the one destination [localFilePath]. *)
Theorem fetchJobStoreFiles_absolute_path h o s p :
  localFilePath o = PathStr s ->
  starts_with_sep s = true ->
  (forall hit, readGlobalFile h hit s (useSymlinks o) = inr tt) ->
  fetchTheseJobStoreFiles o = Some p ->
  fetchJobStoreFiles h o
  = (flat_map
       (fun hit =>
          [LogInfo "Copying job store file: %s to %s" [hit; s];
           ReadGlobalFile hit s (useSymlinks o)])
       (all_hits h (jobStore o) (iterate p)),
     inr tt).
Proof.
  intros Hl Hs Hr Hp. unfold fetchJobStoreFiles, all_hits. rewrite Hp.
  induction (iterate p) as [|pat r IH]; [reflexivity|].
  cbn [fetch_patterns flat_map].
  rewrite (copy_hits_absolute h o s _ Hl Hs Hr), IH. cbn.
  now rewrite flat_map_app.
Qed.

Lemma fetchJobStoreFiles_absolute_path_witness :
  fetchJobStoreFiles sample_host
    {| jobStore := "/store"; localFilePath := PathStr "/out";
       fetchTheseJobStoreFiles := Some (PatternList ["*.txt"]);
       listFilesInJobStore := None; fetchEntireJobStore := None;
       useSymlinks := None |}
  = (flat_map
       (fun hit =>
          [LogInfo "Copying job store file: %s to %s" [hit; "/out"];
           ReadGlobalFile hit "/out" None])
       (all_hits sample_host "/store" (iterate (PatternList ["*.txt"]))),
     inr tt).
Proof.
  apply (fetchJobStoreFiles_absolute_path sample_host
           {| jobStore := "/store"; localFilePath := PathStr "/out";
              fetchTheseJobStoreFiles := Some (PatternList ["*.txt"]);
              listFilesInJobStore := None; fetchEntireJobStore := None;
              useSymlinks := None |} "/out" (PatternList ["*.txt"]));
    reflexivity.
Defined.

(** ** [main] *)

Lemma copy_hits_with_patterns h o p hits :
  copy_hits h (with_patterns p o) hits = copy_hits h o hits.
Proof.
  induction hits as [|hit r IH]; [reflexivity|].
  cbn [copy_hits]. rewrite IH. reflexivity.
Qed.

Lemma fetch_patterns_with_patterns h o p patterns :
  fetch_patterns h (with_patterns p o) patterns = fetch_patterns h o patterns.
Proof.
  induction patterns as [|pat r IH]; [reflexivity|].
  cbn [fetch_patterns]. rewrite IH, copy_hits_with_patterns. reflexivity.
Qed.

Lemma main_fetches_requested h o :
  (if patterns_given (fetchTheseJobStoreFiles o)
   then fetchJobStoreFiles h o
   else if given (fetchEntireJobStore o)
        then fetchJobStoreFiles h (with_patterns (PatternStr "*") o)
        else ([], inr tt))
  = fetch_patterns h o (requested_patterns o).
Proof.
  unfold requested_patterns, fetchJobStoreFiles.
  destruct (fetchTheseJobStoreFiles o) as [[[|x l]|[|c s]]|];
    cbn [patterns_given iterate]; try reflexivity;
    destruct (given (fetchEntireJobStore o)); try reflexivity;
    cbn [with_patterns fetchTheseJobStoreFiles];
    apply fetch_patterns_with_patterns.
Qed.

(** X13. Run from the command line, where [localFilePath] is the list that
    [nargs=1] yields, [main] cannot copy a file: when files are requested
    ([--fetchTheseJobStoreFiles], or [--fetchEntireJobStore], which asks
    for the pattern [*]) and at least one is found, it raises after
    connecting to the job store, having read no file and, whatever
    [--listFilesInJobStore] says, written no list. *)
Theorem main_cannot_copy h o fs l :
  localFilePath o = PathList l ->
  resumeJobStore h (config_jobStore h (jobStore o)) = inr tt ->
  all_hits h (jobStore o) (requested_patterns o) <> [] ->
  main h o fs
  = ([ResumeJobStore (config_jobStore h (jobStore o));
      LogInfo "Connected to job store: %s" [config_jobStore h (jobStore o)]],
     fs, inl (join_error h)).
Proof.
  intros Hl Hr Hh. unfold main. rewrite Hr, main_fetches_requested.
  rewrite (fetch_patterns_list_path h o l _ Hl).
  destruct (all_hits h (jobStore o) (requested_patterns o));
    [contradiction | reflexivity].
Qed.

Lemma main_cannot_copy_witness :
  main sample_host sample_options no_files
  = ([ResumeJobStore (config_jobStore sample_host (jobStore sample_options));
      LogInfo "Connected to job store: %s"
        [config_jobStore sample_host (jobStore sample_options)]],
     no_files, inl (join_error sample_host)).
Proof.
  apply (main_cannot_copy sample_host sample_options no_files ["/out"]);
    [reflexivity | reflexivity | discriminate].
Defined.
